(** * Dashboard de séries temporais: reshaping, normalisation and ranking

    A shallow embedding of [app.py]: the wide-to-long reshaper
    [preparar_df_long] with its two per-type normalisations, and the
    aggregation logic of the dashboard script that consumes the long table.

    Conventions of the embedding.
    - A pandas float is an [option Q]: [None] is NaN, [Some q] an exact
      rational.  Rounding, overflow and infinite values are not modelled
      there; [Binary64] repeats the two normalisers over binary64 floats,
      for the inputs on which they decide the outcome.
    - A Series is a list; a DataFrame is a list of named columns.
    - The three library functions whose text is not part of the program
      (Python's [int] on a [str], the numeric parser behind
      [pd.to_numeric], and the square root inside [Series.std]) are
      gathered in the record [Reshape.library].  [Reference] gives an
      executable instance. *)

From Stdlib Require Import List String Ascii ZArith QArith Bool Lia Lqa Arith.
From Stdlib Require Import Permutation Sorted.
From Stdlib Require PrimFloat.
Import ListNotations.

Local Open Scope list_scope.

(** ** Floats with NaN *)

Module Float.

Definition float := option Q.
Definition NaN : float := None.

Definition Qlt_bool (x y : Q) : bool := negb (Qle_bool y x).

(** Comparisons involving NaN are false, as in Python. *)
Definition gt (a b : float) : bool :=
  match a, b with
  | Some x, Some y => Qlt_bool y x
  | _, _ => false
  end.

Definition lt (a b : float) : bool := gt b a.

Definition mul (a b : float) : float :=
  match a, b with
  | Some x, Some y => Some (x * y)
  | _, _ => None
  end.

Definition isna (a : float) : bool :=
  match a with None => true | Some _ => false end.

Definition notna (a : float) : bool := negb (isna a).

End Float.

(** ** Series reductions, all with pandas' default [skipna=True] *)

Module Series.
Import Float.

Definition series := list float.

(** [s.count()]: the number of non-missing entries. *)
Fixpoint count (s : series) : nat :=
  match s with
  | [] => O
  | None :: s' => count s'
  | Some _ :: s' => S (count s')
  end.

(** [s.sum()]: missing entries are passed over. *)
Fixpoint sum (s : series) : Q :=
  match s with
  | [] => 0
  | None :: s' => sum s'
  | Some x :: s' => x + sum s'
  end.

Definition Qmin' (x y : Q) : Q := if Qle_bool x y then x else y.
Definition Qmax' (x y : Q) : Q := if Qle_bool x y then y else x.

(** [s.min()] and [s.max()]: NaN exactly when nothing is present. *)
Fixpoint min (s : series) : float :=
  match s with
  | [] => None
  | None :: s' => min s'
  | Some x :: s' =>
      match min s' with
      | None => Some x
      | Some m => Some (Qmin' x m)
      end
  end.

Fixpoint max (s : series) : float :=
  match s with
  | [] => None
  | None :: s' => max s'
  | Some x :: s' =>
      match max s' with
      | None => Some x
      | Some m => Some (Qmax' x m)
      end
  end.

Definition of_nat (n : nat) : Q := inject_Z (Z.of_nat n).

(** [s.mean()]: NaN for an all-missing series. *)
Definition mean (s : series) : float :=
  match count s with
  | O => None
  | n => Some (sum s / of_nat n)
  end.

(** Elementwise [s - c] and [s / c] for a scalar [c]; NaN propagates. *)
Definition sub_scalar (s : series) (c : Q) : series :=
  map (option_map (fun x => x - c)) s.

Definition div_scalar (s : series) (c : Q) : series :=
  map (option_map (fun x => x / c)) s.

Definition sq (s : series) : series :=
  map (option_map (fun x => x * x)) s.

(** [pd.Series(0.0, index=s.index)] *)
Definition zeros (s : series) : series := map (fun _ => Some 0) s.

Section Std.
(** The square root used by [Series.std]. *)
Variable sqrt : Q -> Q.

(** Sample variance, [ddof=1]: NaN with fewer than two observations. *)
Definition var (s : series) : float :=
  match mean s with
  | None => None
  | Some m =>
      if (count s <=? 1)%nat then None
      else Some (sum (sq (sub_scalar s m)) / of_nat (count s - 1))
  end.

Definition std (s : series) : float := option_map sqrt (var s).
End Std.

End Series.

(** ** Exceptions *)

Module Exn.

Inductive exn : Type :=
| ValueError (msg : string).

Inductive result (A : Type) : Type :=
| OK (a : A)
| Raise (e : exn).
Arguments OK {A} a.
Arguments Raise {A} e.

Definition bind {A B} (r : result A) (k : A -> result B) : result B :=
  match r with
  | OK a => k a
  | Raise e => Raise e
  end.

(** Run [f] over a list, stopping at the first exception. *)
Fixpoint mapM {A B} (f : A -> result B) (l : list A) : result (list B) :=
  match l with
  | [] => OK []
  | a :: l' =>
      bind (f a) (fun b => bind (mapM f l') (fun bs => OK (b :: bs)))
  end.

End Exn.

(** ** DataFrames *)

Module Frame.
Import Float.

(** What a cell of an object column can hold. *)
Inductive cell : Type :=
| CNum (q : Q)
| CStr (s : string)
| CNull.

Definition column : Type := string * list cell.

(** A frame is its columns, in order. *)
Definition DataFrame : Type := list column.

Definition columns (df : DataFrame) : list string := map fst df.

Definition nrows (df : DataFrame) : nat :=
  match df with
  | [] => O
  | c :: _ => List.length (snd c)
  end.

(** Every column has one entry per row. *)
Definition rectangular (df : DataFrame) : Prop :=
  Forall (fun c => List.length (snd c) = nrows df) df.

(** [name in l] *)
Definition mem (name : string) (l : list string) : bool :=
  existsb (String.eqb name) l.

(** [df[name]] *)
Fixpoint get (name : string) (df : DataFrame) : list cell :=
  match df with
  | [] => []
  | c :: df' => if String.eqb (fst c) name then snd c else get name df'
  end.

(** Equality of group keys held in cells; a null never equals anything. *)
Definition cell_eqb (a b : cell) : bool :=
  match a, b with
  | CNum x, CNum y => Qeq_bool x y
  | CStr s, CStr t => String.eqb s t
  | _, _ => false
  end.

Definition cell_notna (a : cell) : bool :=
  match a with CNull => false | _ => true end.

(** [df.melt(id_vars=id, value_vars=value_vars, ...)]: one block of rows per
    value column, in column order; inside a block, the rows in frame order. *)
Definition melt (df : DataFrame) (id_vars : string) (value_vars : list string)
  : list (cell * string * cell) :=
  flat_map
    (fun v => map (fun p => (fst p, v, snd p)) (combine (get id_vars df) (get v df)))
    value_vars.

End Frame.

(** ** Group-by *)

Module GroupBy.
Import Float Series.

Section Keyed.
Variable K : Type.
(** Key equality, and which keys are not null: [groupby] drops null keys. *)
Variable eqb : K -> K -> bool.
Variable notnull : K -> bool.

(** The values of the rows whose key is [k], in row order. *)
Definition group (k : K) (keys : list K) (vals : series) : series :=
  map snd (filter (fun p => eqb k (fst p)) (combine keys vals)).

(** Distinct keys in order of first appearance. *)
Fixpoint unique_from (seen : list K) (keys : list K) : list K :=
  match keys with
  | [] => []
  | k :: keys' =>
      if existsb (eqb k) seen then unique_from seen keys'
      else k :: unique_from (k :: seen) keys'
  end.

Definition unique (keys : list K) : list K := unique_from [] keys.

(** [df.groupby(key)[col].mean()]: one entry per distinct non-null key.
    pandas lists the groups by ascending key; here they come in order of
    first appearance, which only matters for the relative order of equal
    means after a later sort by value. *)
Definition groupby_mean (keys : list K) (vals : series) : list (K * float) :=
  map (fun k => (k, mean (group k keys vals))) (unique (filter notnull keys)).

(** How often [k] occurs in a list of keys. *)
Definition occurrences (k : K) (keys : list K) : nat :=
  List.length (filter (eqb k) keys).

(** [df.groupby(key)[col].transform(f)]: [f] is applied to every group's
    sub-series and each result is written back at the row it came from.
    Rows with a null key belong to no group and get NaN. *)
Fixpoint transform_from (f : series -> series) (keys : list K) (vals : series)
  (seen rest : list K) : series :=
  match rest with
  | [] => []
  | k :: rest' =>
      (if notnull k
       then nth (occurrences k seen) (f (group k keys vals)) None
       else None)
      :: transform_from f keys vals (seen ++ [k]) rest'
  end.

Definition transform (f : series -> series) (keys : list K) (vals : series)
  : series :=
  transform_from f keys vals [] keys.

End Keyed.

(** ** Sorting by value *)

(** [sort_values()] orders ascending and [sort_values(ascending=False)]
    descending; in both, NaN goes last.  The relative order of equal values
    is that of an insertion sort. *)
Definition asc_leb (a b : float) : bool :=
  match a, b with
  | _, None => true
  | None, Some _ => false
  | Some x, Some y => Qle_bool x y
  end.

Definition desc_leb (a b : float) : bool :=
  match a, b with
  | _, None => true
  | None, Some _ => false
  | Some x, Some y => Qle_bool y x
  end.

Section Sort.
Variable A : Type.
Variable leb : A -> A -> bool.

Fixpoint insert (x : A) (l : list A) : list A :=
  match l with
  | [] => [x]
  | y :: l' => if leb x y then x :: l else y :: insert x l'
  end.

Fixpoint sort (l : list A) : list A :=
  match l with
  | [] => []
  | x :: l' => insert x (sort l')
  end.
End Sort.

Definition sort_values {K} (ascending : bool) (s : list (K * float))
  : list (K * float) :=
  sort _ (fun a b => (if ascending then asc_leb else desc_leb) (snd a) (snd b)) s.

End GroupBy.

(** ** The reshaper *)

Module Reshape.
Import Float Series Exn Frame GroupBy.

Local Open Scope string_scope.

(** One row of the long table [df_long]. *)
Record long_row : Type := mk_row {
  Municipio : cell;
  ano_variavel : string;
  ano : Z;
  tipo : option string;
  valor : float;
  valor_minmax_tipo : float;
  valor_zscore_tipo : float
}.

(** [name.split("_", n=1)]: the text before the first underscore, and the
    text after it when there is one. *)
Fixpoint split_once (name : string) : string * option string :=
  match name with
  | EmptyString => (EmptyString, None)
  | String c rest =>
      if Ascii.eqb c "_"%char then (EmptyString, Some rest)
      else let p := split_once rest in (String c (fst p), snd p)
  end.

(** Whether a character occurs nowhere in a string. *)
Fixpoint free_of (c : ascii) (s : string) : Prop :=
  match s with
  | EmptyString => True
  | String d s' => d <> c /\ free_of c s'
  end.

(** [[col for col in df.columns if col != "Município"]] *)
Definition value_cols (df : DataFrame) : list string :=
  filter (fun col => negb (String.eqb col "Município")) (columns df).

(** The melted table the long table is built on. *)
Definition base (df : DataFrame) : list (cell * string * cell) :=
  melt df "Município" (value_cols df).

Definition tipo_eqb (a b : option string) : bool :=
  match a, b with
  | Some s, Some t => String.eqb s t
  | _, _ => false
  end.

Definition tipo_notnull (a : option string) : bool :=
  match a with Some _ => true | None => false end.

(** The library functions whose text is not part of the program. *)
Record library : Type := mk_library {
  (** Python's [int(s)] for a [str]; [None] stands for its [ValueError]. *)
  int_of_str : string -> option Z;
  (** The parser [pd.to_numeric] applies to a [str]; [None] when it fails. *)
  float_of_str : string -> option Q;
  (** The square root inside [Series.std]. *)
  sqrt : Q -> Q
}.

Section Library.
Variable lib : library.

(** [pd.to_numeric(_, errors="coerce")] on one cell. *)
Definition to_numeric (c : cell) : float :=
  match c with
  | CNum q => Some q
  | CStr s => float_of_str lib s
  | CNull => None
  end.

(** [.astype(int)] on one entry of a column of strings. *)
Definition astype_int (s : string) : result Z :=
  match int_of_str lib s with
  | Some z => OK z
  | None => Raise (ValueError "invalid literal for int() with base 10")
  end.

Definition _minmax (s : series) : series :=
  let mn := min s in
  let mx := max s in
  match mn, mx with
  | Some mn, Some mx =>
      if Qeq_bool mx mn then zeros s
      else div_scalar (sub_scalar s mn) (mx - mn)
  | _, _ => zeros s
  end.

Definition _zscore (s : series) : series :=
  let m := mean s in
  let sd := std (sqrt lib) s in
  match m, sd with
  | Some m, Some sd =>
      if Qeq_bool sd 0 then zeros s
      else div_scalar (sub_scalar s m) sd
  | _, _ => zeros s
  end.

Definition build_row (x : cell * string * cell * Z * option string * float * float * float)
  : long_row :=
  match x with
  | (m, name, _, a, t, v, mm, z) => mk_row m name a t v mm z
  end.

Definition preparar_df_long (df : DataFrame) : result (list long_row) :=
  if negb (mem "Município" (columns df)) then
    Raise (ValueError "Coluna 'Município' não encontrada em df_final.parquet.")
  else
    let value_cols := value_cols df in
    let df_long := melt df "Município" value_cols in
    (* str.split("_", n=1, expand=True), assigned to the two columns
       "ano" and "tipo": the expanded frame is as wide as the longest
       split, and the assignment needs it two columns wide *)
    let parts := map (fun r => split_once (snd (fst r))) df_long in
    if negb (existsb (fun p => tipo_notnull (snd p)) parts) then
      Raise (ValueError "Columns must be same length as key")
    else
      let tipos := map snd parts in
      bind (mapM (fun p => astype_int (fst p)) parts) (fun anos =>
      let valores := map (fun r => to_numeric (snd r)) df_long in
      let minmax := transform _ tipo_eqb tipo_notnull _minmax tipos valores in
      let zscore := transform _ tipo_eqb tipo_notnull _zscore tipos valores in
      OK (map build_row
            (combine (combine (combine (combine (combine
               df_long anos) tipos) valores) minmax) zscore))).

(** A row of nothing, for reading a table at a position. *)
Definition no_row : long_row := mk_row CNull EmptyString 0 None None None None.

(** How a row of the long table reads off the melted row it comes from. *)
Definition row_of (b : cell * string * cell) (r : long_row) : Prop :=
  Municipio r = fst (fst b) /\
  ano_variavel r = snd (fst b) /\
  int_of_str lib (fst (split_once (snd (fst b)))) = Some (ano r) /\
  tipo r = snd (split_once (snd (fst b))) /\
  valor r = to_numeric (snd b).

(** A column name of the form year, underscore, type. *)
Definition well_named (name : string) : Prop :=
  tipo_notnull (snd (split_once name)) = true /\
  int_of_str lib (fst (split_once name)) <> None.

End Library.

(** The range of a 32-bit integer, which the integer type that
    [.astype(int)] converts to holds on every platform. *)
Definition fits_int (z : Z) : Prop := (- 2 ^ 31 <= z < 2 ^ 31)%Z.

End Reshape.

(** ** The dashboard script *)

Module App.
Import Float Series Exn Frame GroupBy Reshape.

Local Open Scope string_scope.

(** The three scales offered by the "Escala para o gráfico" select boxes,
    and the column of the long table each one selects. *)
Inductive escala : Type :=
| ValorOriginal
| MinMaxPorTipo
| ZScorePorTipo.

Definition col_valor (e : escala) : long_row -> float :=
  match e with
  | ValorOriginal => valor
  | MinMaxPorTipo => valor_minmax_tipo
  | ZScorePorTipo => valor_zscore_tipo
  end.

(** What the user has chosen in the widgets of one run of the script. *)
Record widgets : Type := mk_widgets {
  tipo_escolhido : string;
  limitar_municipios : bool;
  top_n : nat;
  municipio_escolhido : cell;
  tipos_selecionados : list string;
  escala_sec2 : escala;
  tipo_rank : string;
  ano_rank : Z;
  tipos_sel4 : list string;
  cidades_sel4 : list cell;
  escala_sec4 : escala
}.

(** The sentence chosen for "Tendência global", with the numbers and years
    it interpolates, in the order the text names them. *)
Inductive tendencia : Type :=
| Crescimento (de : float) (primeiro_ano : Z) (para : float) (ultimo_ano : Z)
| Queda (de : float) (primeiro_ano : Z) (para : float) (ultimo_ano : Z)
| Estavel (em_torno_de : float)
| SemDados.

Inductive rotulo : Type := growth | decline | stable | undetermined.

Definition rotulo_de (t : tendencia) : rotulo :=
  match t with
  | Crescimento _ _ _ _ => growth
  | Queda _ _ _ _ => decline
  | Estavel _ => stable
  | SemDados => undetermined
  end.

(** [df_long[df_long["tipo"] == t]] *)
Definition filtra_tipo (t : string) (df_long : list long_row) : list long_row :=
  filter (fun r => tipo_eqb (tipo r) (Some t)) df_long.

(** [df_tipo.groupby("Município")["valor"].mean().sort_values(ascending=False)] *)
Definition rank_media (df_tipo : list long_row) : list (cell * float) :=
  sort_values false
    (groupby_mean _ cell_eqb cell_notna (map Municipio df_tipo) (map valor df_tipo)).

(** [df_tipo.groupby("ano")["valor"].mean().sort_values()] *)
Definition media_ano (df_tipo : list long_row) : list (Z * float) :=
  sort_values true
    (groupby_mean _ Z.eqb (fun _ => true) (map ano df_tipo) (map valor df_tipo)).

Definition tendencia_global (df_tipo : list long_row) : tendencia :=
  let media_ano := media_ano df_tipo in
  if (2 <=? List.length media_ano)%nat then
    let primeiro_ano := fst (hd (0%Z, NaN) media_ano) in
    let ultimo_ano := fst (last media_ano (0%Z, NaN)) in
    let valor_ini := snd (hd (0%Z, NaN) media_ano) in
    let valor_fim := snd (last media_ano (0%Z, NaN)) in
    if gt valor_ini (mul valor_fim (Some (105 # 100))) then
      Crescimento valor_fim primeiro_ano valor_ini ultimo_ano
    else if lt valor_ini (mul valor_fim (Some (95 # 100))) then
      Queda valor_fim primeiro_ano valor_ini ultimo_ano
    else
      Estavel valor_ini
  else SemDados.

(** The rule of the specification, on the mean of the first year and the
    mean of the last year. *)
Definition rotulo_spec (first_year last_year : float) : rotulo :=
  if gt first_year (mul last_year (Some (105 # 100))) then growth
  else if lt first_year (mul last_year (Some (95 # 100))) then decline
  else stable.

(** [x in l] for cells and for strings against the [tipo] column. *)
Definition cell_isin (l : list cell) (x : cell) : bool := existsb (cell_eqb x) l.

Definition tipo_isin (l : list string) (t : option string) : bool :=
  existsb (fun s => tipo_eqb t (Some s)) l.

(** [max] of a column of years. *)
Definition ano_max (l : list Z) : Z := fold_right Z.max (hd 0%Z l) l.
Definition ano_min (l : list Z) : Z := fold_right Z.min (hd 0%Z l) l.

(** The series label of section 4: [Município + " – " + tipo]. *)
Definition serie (r : long_row) : option string :=
  match Municipio r, tipo r with
  | CStr m, Some t => Some (m ++ " – " ++ t)
  | _, _ => None
  end.

(** The rows section 3 ranks. *)
Definition df_rank_de (long : list long_row) (w : widgets) : list long_row :=
  filter (fun r => tipo_eqb (tipo r) (Some (tipo_rank w))
                   && Z.eqb (ano r) (ano_rank w)) long.

(** The rows section 2 draws, and the rows section 4 draws. *)
Definition df_city_de (long : list long_row) (w : widgets) : list long_row :=
  filter (fun r => cell_eqb (Municipio r) (municipio_escolhido w)
                   && tipo_isin (tipos_selecionados w) (tipo r)) long.

Definition df_comp_de (long : list long_row) (w : widgets) : list long_row :=
  filter (fun r => tipo_isin (tipos_sel4 w) (tipo r)
                   && cell_isin (cidades_sel4 w) (Municipio r)) long.

(** The summaries interpolated into the four "Interpretação" texts. *)
Inductive resumo : Type :=
| Resumo1 (top3 : list (cell * float)) (t : tendencia)
| Resumo2 (ano_final : Z) (resumo_final : list (option string * float))
| Resumo3 (top3 bottom3 : list long_row) (diff_val : float)
| Resumo4 (ano_final : Z) (resumo4 : list (option string * float)).

(** What one run of the script shows, in order. *)
Inductive event : Type :=
| st_warning (msg : string)
| st_error (msg : string)
| st_success (linhas colunas : nat)
| st_stop
| st_pyplot (dados : list long_row)
| st_markdown (r : resumo)
| uncaught (exception : string).

(** [plot_serie_temporal]: one line per group of [group_col], the rows of a
    group ordered by [x_col]; a line is its label and its points.  Groups
    with a null label are not drawn.  The lines come in order of first
    appearance of their label (pandas orders them by label). *)
Definition plot_serie_temporal {K} (eqb : K -> K -> bool) (notnull : K -> bool)
  (df_plot : list long_row) (x_col : long_row -> Z) (y_col : long_row -> float)
  (group_col : long_row -> K) : list (K * list (Z * float)) :=
  map
    (fun group =>
       let dados := filter (fun r => eqb group (group_col r)) df_plot in
       let dados := sort _ (fun a b => Z.leb (x_col a) (x_col b)) dados in
       (group, map (fun r => (x_col r, y_col r)) dados))
    (unique _ eqb (filter notnull (map group_col df_plot))).

Section Script.
Variable lib : library.

(** Section 1: time series of one type over the municipalities. *)
Definition secao1 (df_long : list long_row) (w : widgets) : list event :=
  let df_tipo := filtra_tipo (tipo_escolhido w) df_long in
  if (count (map valor df_tipo) =? 0)%nat then
    [st_warning "não há valores numéricos válidos em valor"]
  else
    let rank_media := rank_media df_tipo in
    let df_plot_tipo :=
      if limitar_municipios w then
        let top_muns := map fst (firstn (top_n w) rank_media) in
        filter (fun r => cell_isin top_muns (Municipio r)) df_tipo
      else df_tipo in
    let top3 := firstn 3 rank_media in
    [st_pyplot df_plot_tipo; st_markdown (Resumo1 top3 (tendencia_global df_tipo))].

(** Section 2: the types of one municipality, on a chosen scale. *)
Definition secao2 (df_long : list long_row) (w : widgets) : list event :=
  let col_valor_sec2 := col_valor (escala_sec2 w) in
  let df_city :=
    filter (fun r => cell_eqb (Municipio r) (municipio_escolhido w)
                     && tipo_isin (tipos_selecionados w) (tipo r)) df_long in
  if (count (map col_valor_sec2 df_city) =? 0)%nat then
    [st_warning "Não há dados suficientes para essa combinação de município, tipos e escala."]
  else
    let ano_final := ano_max (map ano df_city) in
    let df_final_ano := filter (fun r => Z.eqb (ano r) ano_final) df_city in
    let resumo_final :=
      sort_values false
        (groupby_mean _ tipo_eqb tipo_notnull
           (map tipo df_final_ano) (map col_valor_sec2 df_final_ano)) in
    [st_pyplot df_city; st_markdown (Resumo2 ano_final resumo_final)].

(** [df_rank.sort_values("valor", ascending=False)] *)
Definition sort_rows_desc (df : list long_row) : list long_row :=
  sort _ (fun a b => desc_leb (valor a) (valor b)) df.

Definition fsub (a b : float) : float :=
  match a, b with
  | Some x, Some y => Some (x - y)
  | _, _ => None
  end.

(** Section 3: ranking of the municipalities for one type and one year.
    With exactly two rows the text reads [top3_rank.iloc[2]], which pandas
    answers with an [IndexError]. *)
Definition secao3 (df_long : list long_row) (w : widgets) : list event :=
  let df_rank :=
    filter (fun r => tipo_eqb (tipo r) (Some (tipo_rank w))
                     && Z.eqb (ano r) (ano_rank w)) df_long in
  if (count (map valor df_rank) =? 0)%nat then
    [st_warning "Não há dados numéricos para esse ano e tipo."]
  else
    let df_rank_sorted := sort_rows_desc df_rank in
    let top3_rank := firstn 3 df_rank_sorted in
    let bottom3_rank := skipn (List.length df_rank_sorted - 3) df_rank_sorted in
    if (List.length top3_rank =? 2)%nat then
      [st_pyplot df_rank_sorted; uncaught "IndexError"]
    else
      let diff_val :=
        fsub (max (map valor df_rank_sorted)) (min (map valor df_rank_sorted)) in
      [st_pyplot df_rank_sorted;
       st_markdown
         (Resumo3 top3_rank
            (if (3 <? List.length df_rank_sorted)%nat then bottom3_rank else [])
            diff_val)].

(** Section 4: several municipalities and types at once. *)
Definition secao4 (df_long : list long_row) (w : widgets) : list event :=
  let col_valor_sec4 := col_valor (escala_sec4 w) in
  let df_comp :=
    filter (fun r => tipo_isin (tipos_sel4 w) (tipo r)
                     && cell_isin (cidades_sel4 w) (Municipio r)) df_long in
  if (count (map col_valor_sec4 df_comp) =? 0)%nat then
    [st_warning "Não há dados suficientes para essa combinação de cidades, tipos e escala."]
  else
    let ano_final4 := ano_max (map ano df_comp) in
    let df_final4 := filter (fun r => Z.eqb (ano r) ano_final4) df_comp in
    let resumo4 :=
      sort_values false
        (groupby_mean _ tipo_eqb tipo_notnull
           (map serie df_final4) (map col_valor_sec4 df_final4)) in
    [st_pyplot df_comp; st_markdown (Resumo4 ano_final4 resumo4)].

(** An uncaught exception ends the run; so does [st.stop()]. *)
Definition ends_run (e : event) : bool :=
  match e with
  | st_stop | uncaught _ => true
  | _ => false
  end.

Definition and_then (before after : list event) : list event :=
  if existsb ends_run before then before else before ++ after.

(** The script from the upload widget on.  [file_df_final] is the uploaded
    table, when there is one. *)
Definition main (file_df_final : option DataFrame) (w : widgets) : list event :=
  match file_df_final with
  | None =>
      [st_warning "Carregue o arquivo df_final.parquet na barra lateral para continuar.";
       st_stop]
  | Some df_final =>
      match preparar_df_long lib df_final with
      | Raise (ValueError e) =>
          [st_error ("Erro ao preparar df_long: " ++ e); st_stop]
      | OK df_long =>
          [st_success (nrows df_final) (List.length df_final)]
          ++ and_then (secao1 df_long w)
               (and_then (secao2 df_long w)
                  (and_then (secao3 df_long w) (secao4 df_long w)))
      end
  end.

(** Events that show a chart or a computed summary. *)
Definition is_chart_or_aggregate (e : event) : bool :=
  match e with
  | st_pyplot _ | st_markdown _ => true
  | _ => false
  end.

End Script.

End App.

(** ** An executable instance of the library functions *)

Module Reference.
Import Float Series Exn Frame GroupBy Reshape App.

Local Open Scope string_scope.

Definition digit (c : ascii) : option Z :=
  let n := nat_of_ascii c in
  if ((48 <=? n) && (n <=? 57))%nat then Some (Z.of_nat (n - 48)) else None.

(** A non-empty run of ASCII digits, read in base ten. *)
Fixpoint digits_from (acc : Z) (s : string) : option Z :=
  match s with
  | EmptyString => Some acc
  | String c s' =>
      match digit c with
      | Some d => digits_from (10 * acc + d) s'
      | None => None
      end
  end.

Definition digits (s : string) : option Z :=
  match s with
  | EmptyString => None
  | _ => digits_from 0 s
  end.

(** Integer literals: an optional sign and digits.  This is the ASCII part
    of what Python's [int] reads, without blanks and digit separators. *)
Definition int_literal (s : string) : option Z :=
  match s with
  | String "-" s' => option_map Z.opp (digits s')
  | String "+" s' => digits s'
  | _ => digits s
  end.

(** The text before the first dot and, when there is a dot, the text after. *)
Fixpoint split_dot (s : string) : string * option string :=
  match s with
  | EmptyString => (EmptyString, None)
  | String c rest =>
      if Ascii.eqb c "."%char then (EmptyString, Some rest)
      else let p := split_dot rest in (String c (fst p), snd p)
  end.

Definition unsigned_decimal (s : string) : option Q :=
  match split_dot s with
  | (i, None) => option_map inject_Z (digits i)
  | (i, Some f) =>
      match digits i, digits f with
      | Some a, Some b =>
          Some (inject_Z a + inject_Z b / inject_Z (10 ^ Z.of_nat (String.length f)))
      | _, _ => None
      end
  end.

(** Decimal literals: an optional sign, digits, and optionally a dot and
    more digits. *)
Definition decimal_literal (s : string) : option Q :=
  match s with
  | String "-" s' => option_map Qopp (unsigned_decimal s')
  | String "+" s' => unsigned_decimal s'
  | _ => unsigned_decimal s
  end.

(** A rational approximation of the square root by Heron's iteration; it is
    zero exactly on the non-positive rationals. *)
Fixpoint heron (n : nat) (x y : Q) : Q :=
  match n with
  | O => y
  | S n' => heron n' x (Qred ((y + x / y) / 2))
  end.

Definition sqrt_approx (x : Q) : Q :=
  if Qle_bool x 0 then 0 else heron 5 x (Qred ((x + 1) / 2)).

Definition reference : library :=
  mk_library int_literal decimal_literal sqrt_approx.

(** Sample tables. *)

(** The example of the specification: one municipality, two years. *)
Definition df_exemplo : DataFrame :=
  [ ("Município", [CStr "X"]);
    ("2017_geral", [CNum 10]);
    ("2018_geral", [CNum 20]) ].

(** Two municipalities, two types, a text cell and a null. *)
Definition df_misto : DataFrame :=
  [ ("Município", [CStr "A"; CStr "B"; CStr "C"]);
    ("2017_geral", [CNum 1; CStr "abc"; CNum 3]);
    ("2018_geral", [CNum 2; CNull; CNum 5]);
    ("2017_covid_total", [CNum 7; CNum 7; CNum 7]) ].

(** No municipality column. *)
Definition df_sem_municipio : DataFrame :=
  [ ("Cidade", [CStr "A"]); ("2017_geral", [CNum 1]) ].

(** Yearly means 100 in 2017 and 94 in 2018 for the type "geral". *)
Definition df_100_94 : DataFrame :=
  [ ("Município", [CStr "A"; CStr "B"]);
    ("2017_geral", [CNum 90; CNum 110]);
    ("2018_geral", [CNum 94; CNum 94]) ].

Definition widgets_geral : widgets :=
  mk_widgets "geral" true 10 (CStr "A") ["geral"] MinMaxPorTipo
    "geral" 2018 ["geral"] [CStr "A"; CStr "B"] MinMaxPorTipo.

(** The long table of a sample, or the empty table if it is refused. *)
Definition long_of (df : DataFrame) : list long_row :=
  match preparar_df_long reference df with
  | OK l => l
  | Raise _ => []
  end.

(** A square root that is exact on the squares of rationals. *)
Definition sqrt_floor (x : Q) : Q :=
  let r := Qred x in Z.sqrt (Qnum r) # Pos.sqrt (Qden r).

Definition reference_floor : library :=
  mk_library int_literal decimal_literal sqrt_floor.

(** One type with the values 1, 3 and 5. *)
Definition df_135 : DataFrame :=
  [ ("Município", [CStr "A"; CStr "B"; CStr "C"]);
    ("2017_leitos", [CNum 1; CNum 3; CNum 5]) ].

(** The same negative value in two years. *)
Definition df_negativo : DataFrame :=
  [ ("Município", [CStr "A"]);
    ("2017_saldo", [CNum (-1)]);
    ("2018_saldo", [CNum (-1)]) ].

(** A year without any value. *)
Definition df_ano_vazio : DataFrame :=
  [ ("Município", [CStr "A"; CStr "B"]);
    ("2017_geral", [CNum 100; CNum 100]);
    ("2018_geral", [CNull; CStr "n/d"]);
    ("2019_geral", [CNum 10; CNum 10]) ].

(** A column whose year is not a number. *)
Definition df_ano_invalido : DataFrame :=
  [ ("Município", [CStr "A"]);
    ("2017_geral", [CNum 1]);
    ("total_geral", [CNum 2]) ].

(** The municipality column in the middle. *)
Definition df_municipio_no_meio : DataFrame :=
  [ ("2017_geral", [CNum 1; CNum 2]);
    ("Município", [CStr "A"; CStr "B"]);
    ("2018_geral", [CNum 3; CNum 4]) ].

End Reference.

(** ** Pivoting the long table back *)

Module Pivot.
Import Float Series Exn Frame GroupBy Reshape.

Local Open Scope string_scope.

(** The pivot is not part of [app.py].  It follows the round-trip law of the
    specification: the [valor] column is spread back into one row per
    municipality and one column per (year, type) key. *)

Definition key : Type := Z * option string.

Definition key_eqb (a b : key) : bool :=
  Z.eqb (fst a) (fst b) &&
  match snd a, snd b with
  | Some s, Some t => String.eqb s t
  | None, None => true
  | _, _ => false
  end.

Definition key_of_row (r : long_row) : key := (ano r, tipo r).

Record wide : Type := mk_wide {
  index : list cell;
  cols : list (key * list float)
}.

(** The entry for municipality [m] under key [k]: the value of the one row
    with that municipality and key, NaN if there is none; two such rows make
    the pivot fail, as [DataFrame.pivot] does on duplicate entries. *)
Definition pivot_cell (long : list long_row) (k : key) (m : cell) : result float :=
  match
    filter (fun r => cell_eqb (Municipio r) m && key_eqb (key_of_row r) k) long
  with
  | [] => OK NaN
  | [r] => OK (valor r)
  | _ => Raise (ValueError "Index contains duplicate entries, cannot reshape")
  end.

(** Rows and columns come in order of first appearance in the long table. *)
Definition pivot (long : list long_row) : result wide :=
  let idx := unique _ cell_eqb (map Municipio long) in
  let ks := unique _ key_eqb (map key_of_row long) in
  bind
    (mapM (fun k => bind (mapM (pivot_cell long k) idx) (fun c => OK (k, c))) ks)
    (fun cs => OK (mk_wide idx cs)).

(** A float as a cell of a wide table. *)
Definition cell_of_float (x : float) : cell :=
  match x with
  | Some q => CNum q
  | None => CNull
  end.

(** A cell that holds a number or nothing. *)
Definition is_number (c : cell) : Prop :=
  match c with
  | CStr _ => False
  | _ => True
  end.

(** A cell that holds a name. *)
Definition is_name (c : cell) : Prop :=
  match c with
  | CStr _ => True
  | _ => False
  end.

Section Library.
Variable lib : library.

(** The (year, type) key a column name stands for. *)
Definition key_of_name (name : string) : option key :=
  match int_of_str lib (fst (split_once name)) with
  | Some y => Some (y, snd (split_once name))
  | None => None
  end.

(** The key of a column whose name has one. *)
Definition key_or_default (name : string) : key :=
  match key_of_name name with
  | Some k => k
  | None => (0%Z, None)
  end.

(** [w] reproduces [df], whatever the order of the columns: the same
    municipalities in the same rows, as many columns as [df] has value
    columns, and for every value column of [df] a column of [w] under its
    key with exactly its cells. *)
Definition reproduces (df : DataFrame) (w : wide) : Prop :=
  index w = get "Município" df /\
  List.length (cols w) = List.length (value_cols df) /\
  forall v, In v (value_cols df) ->
    exists c, In c (cols w) /\
      key_of_name v = Some (fst c) /\
      map cell_of_float (snd c) = get v df.

End Library.

End Pivot.

(** ** Degenerate groups *)

Module Degenerate.
Import Float Series Reshape.

(** The cases in which a normalisation falls back to the constant 0.0, in
    the words of the specification, for the values [s] of one type. *)

Definition all_missing (s : series) : Prop := count s = O.

Definition min_equals_max (s : series) : Prop :=
  exists mn mx, min s = Some mn /\ max s = Some mx /\ mx == mn.

(** All the values present are equal to [v], and [v] is one of them. *)
Definition constant_at (v : Q) (s : series) : Prop :=
  In (Some v) s /\ forall x, In (Some x) s -> x == v.

(** Degenerate for min-max: minimum equal to maximum, or all missing. *)
Definition minmax_degenerate (s : series) : Prop :=
  min_equals_max s \/ all_missing s.

(** Degenerate for the z-score: standard deviation undefined or zero. *)
Definition std_undefined_or_zero (sqrt : Q -> Q) (s : series) : Prop :=
  match std sqrt s with
  | None => True
  | Some sd => sd == 0
  end.

(** Degenerate in either sense. *)
Definition degenerate (sqrt : Q -> Q) (s : series) : Prop :=
  min_equals_max s \/ std_undefined_or_zero sqrt s \/ all_missing s.

(** A number in the closed interval from 0 to 1. *)
Definition in_unit_interval (x : float) : Prop :=
  exists q, x = Some q /\ 0 <= q /\ q <= 1.

(** A square root vanishes at zero and nowhere else. *)
Definition sqrt_zero_iff (sqrt : Q -> Q) : Prop :=
  forall x, 0 <= x -> (sqrt x == 0 <-> x == 0).

(** A magnitude that leaves room for the difference of two values: below
    it no subtraction overflows, neither in int64 nor in binary64. *)
Definition magnitude_bound : Q := inject_Z (2 ^ 61).

(** A value that is missing, or finite and within the bound. *)
Definition within_bound (x : float) : Prop :=
  match x with
  | Some q => - magnitude_bound <= q /\ q <= magnitude_bound
  | None => True
  end.

End Degenerate.

(** ** The normalisers in binary64 *)

Module Binary64.
Import PrimFloat.

Local Open Scope float_scope.

(** [_minmax] and [_zscore] once more, over the floats the program runs
    on.  The reductions [min], [max], [mean] and [std] are pandas' own, not
    the program's; they are written out as pandas computes them on a
    float64 column. *)

(** A column of float64: a missing entry is the float NaN. *)
Definition series := list PrimFloat.float.

Definition isna (x : PrimFloat.float) : bool := is_nan x.

(** [s.count()] *)
Fixpoint count (s : series) : nat :=
  match s with
  | [] => O
  | x :: s' => if isna x then count s' else S (count s')
  end.

(** A count as a float; exact, the counts being far below 2^53. *)
Fixpoint of_nat (n : nat) : PrimFloat.float :=
  match n with
  | O => 0
  | S n' => of_nat n' + 1
  end.

(** [s.sum()]: the entries present are added from left to right, which is
    the order of numpy's summation for fewer than eight entries. *)
Definition sum (s : series) : PrimFloat.float :=
  fold_left (fun acc x => if isna x then acc else acc + x) s 0.

(** [s.min()] and [s.max()]: NaN exactly when nothing is present. *)
Definition fmin (a x : PrimFloat.float) : PrimFloat.float :=
  if isna x then a else if isna a then x else if x <? a then x else a.

Definition fmax (a x : PrimFloat.float) : PrimFloat.float :=
  if isna x then a else if isna a then x else if a <? x then x else a.

Definition min (s : series) : PrimFloat.float := fold_left fmin s nan.
Definition max (s : series) : PrimFloat.float := fold_left fmax s nan.

(** [s.mean()]: the sum over the count. *)
Definition mean (s : series) : PrimFloat.float :=
  match count s with
  | O => nan
  | n => sum s / of_nat n
  end.

(** [s.std()], [ddof=1], in two passes as pandas computes it: the mean,
    then the squares of the deviations from it, their sum over the count
    less one, and the square root. *)
Definition std (s : series) : PrimFloat.float :=
  match count s with
  | O => nan
  | S O => nan
  | n =>
      let avg := sum s / of_nat n in
      let sqr := map (fun x => (avg - x) * (avg - x)) s in
      sqrt (sum sqr / of_nat (n - 1))
  end.

(** [pd.Series(0.0, index=s.index)] *)
Definition zeros (s : series) : series := map (fun _ => 0) s.

Definition _minmax (s : series) : series :=
  let mn := min s in
  let mx := max s in
  if (isna mn || isna mx || (mx =? mn))%bool then zeros s
  else map (fun x => (x - mn) / (mx - mn)) s.

Definition _zscore (s : series) : series :=
  let m := mean s in
  let sd := std s in
  if (isna m || isna sd || (sd =? 0))%bool then zeros s
  else map (fun x => (x - m) / sd) s.

(** The float that Python reads for 0.1: the binary64 nearest to it. *)
Definition tenth : PrimFloat.float := 0x1.999999999999ap-4.

(** Sample columns of one type. *)
Definition constant_group : series := [tenth; tenth; tenth].

Definition constant_group_with_gap : series := [tenth; tenth; tenth; nan].

Definition group_with_infinity : series := [0; 1; infinity].

Definition group_of_wide_range : series := [- 0x1p1023; 0; 0x1p1023].

Definition group_of_close_values : series :=
  [- 0x1p60; tenth; tenth + tenth; 0x1p60].

End Binary64.

(** * Properties *)

Module FloatFacts.
Import Float.

Lemma Qlt_bool_iff x y : Qlt_bool x y = true <-> x < y.
Proof.
  unfold Qlt_bool. rewrite negb_true_iff.
  split; intros H.
  - apply Qnot_le_lt. intros Hle. apply Qle_bool_iff in Hle. congruence.
  - destruct (Qle_bool y x) eqn:E; [|reflexivity].
    apply Qle_bool_iff in E. exfalso. exact (Qlt_not_le _ _ H E).
Qed.

Lemma Qle_bool_false x y : Qle_bool x y = false -> y < x.
Proof.
  intros H. apply Qlt_bool_iff. unfold Qlt_bool. now rewrite H.
Qed.

Lemma Qeq_bool_false x y : Qeq_bool x y = false -> ~ x == y.
Proof. intros H E. apply Qeq_bool_iff in E. congruence. Qed.

End FloatFacts.

(** ** Reductions pass over missing entries *)

Module SeriesFacts.
Import Float Series FloatFacts.

Lemma count_skip l1 l2 : count (l1 ++ None :: l2) = count (l1 ++ l2).
Proof. induction l1 as [|[x|] l1 IH]; simpl; congruence. Qed.

Lemma sum_skip l1 l2 : sum (l1 ++ None :: l2) = sum (l1 ++ l2).
Proof.
  induction l1 as [|[x|] l1 IH]; cbn [app sum];
    [reflexivity | now rewrite IH | exact IH].
Qed.

Lemma min_skip l1 l2 : min (l1 ++ None :: l2) = min (l1 ++ l2).
Proof.
  induction l1 as [|[x|] l1 IH]; cbn [app min];
    [reflexivity | now rewrite IH | exact IH].
Qed.

Lemma max_skip l1 l2 : max (l1 ++ None :: l2) = max (l1 ++ l2).
Proof.
  induction l1 as [|[x|] l1 IH]; cbn [app max];
    [reflexivity | now rewrite IH | exact IH].
Qed.

Lemma mean_skip l1 l2 : mean (l1 ++ None :: l2) = mean (l1 ++ l2).
Proof. unfold mean. now rewrite count_skip, sum_skip. Qed.

Lemma var_skip l1 l2 : var (l1 ++ None :: l2) = var (l1 ++ l2).
Proof.
  unfold var. rewrite mean_skip, count_skip.
  destruct (mean (l1 ++ l2)) as [m|]; [|reflexivity].
  unfold sq, sub_scalar. rewrite !map_app. simpl.
  now rewrite sum_skip.
Qed.

Lemma std_skip sqrt l1 l2 : std sqrt (l1 ++ None :: l2) = std sqrt (l1 ++ l2).
Proof. unfold std. now rewrite var_skip. Qed.

(** ** Minimum and maximum *)

Lemma min_None s : min s = None <-> count s = O.
Proof.
  induction s as [|[x|] s IH]; simpl; [tauto| |exact IH].
  destruct (min s); split; discriminate.
Qed.

Lemma max_None s : max s = None <-> count s = O.
Proof.
  induction s as [|[x|] s IH]; simpl; [tauto| |exact IH].
  destruct (max s); split; discriminate.
Qed.

Lemma Qmin'_le_l x y : Qmin' x y <= x.
Proof.
  unfold Qmin'. destruct (Qle_bool x y) eqn:E; [apply Qle_refl|].
  apply Qlt_le_weak. now apply Qle_bool_false.
Qed.

Lemma Qmin'_le_r x y : Qmin' x y <= y.
Proof.
  unfold Qmin'. destruct (Qle_bool x y) eqn:E; [|apply Qle_refl].
  now apply Qle_bool_iff.
Qed.

Lemma Qmax'_ge_l x y : x <= Qmax' x y.
Proof.
  unfold Qmax'. destruct (Qle_bool x y) eqn:E; [|apply Qle_refl].
  now apply Qle_bool_iff.
Qed.

Lemma Qmax'_ge_r x y : y <= Qmax' x y.
Proof.
  unfold Qmax'. destruct (Qle_bool x y) eqn:E; [apply Qle_refl|].
  apply Qlt_le_weak. now apply Qle_bool_false.
Qed.

Lemma count_0_no_Some s x : count s = O -> ~ In (Some x) s.
Proof.
  induction s as [|[z|] s IHs]; simpl; intros H Hin.
  - contradiction.
  - discriminate.
  - destruct Hin as [Hin|Hin]; [discriminate|exact (IHs H Hin)].
Qed.

Lemma min_le s m x : min s = Some m -> In (Some x) s -> m <= x.
Proof.
  revert m. induction s as [|[y|] s IH]; simpl; intros m Hm Hin.
  - contradiction.
  - destruct (min s) as [m'|] eqn:E.
    + injection Hm as <-. destruct Hin as [Hin|Hin].
      * injection Hin as ->. apply Qmin'_le_l.
      * eapply Qle_trans; [apply Qmin'_le_r|]. now apply IH.
    + injection Hm as <-. destruct Hin as [Hin|Hin].
      * injection Hin as ->. apply Qle_refl.
      * exfalso. apply min_None in E. exact (count_0_no_Some _ _ E Hin).
  - destruct Hin as [Hin|Hin]; [discriminate|auto].
Qed.

Lemma max_ge s m x : max s = Some m -> In (Some x) s -> x <= m.
Proof.
  revert m. induction s as [|[y|] s IH]; simpl; intros m Hm Hin.
  - contradiction.
  - destruct (max s) as [m'|] eqn:E.
    + injection Hm as <-. destruct Hin as [Hin|Hin].
      * injection Hin as ->. apply Qmax'_ge_l.
      * eapply Qle_trans; [|apply Qmax'_ge_r]. now apply IH.
    + injection Hm as <-. destruct Hin as [Hin|Hin].
      * injection Hin as ->. apply Qle_refl.
      * exfalso. apply max_None in E. exact (count_0_no_Some _ _ E Hin).
  - destruct Hin as [Hin|Hin]; [discriminate|auto].
Qed.

(** The minimum is one of the entries. *)
Lemma min_In s m : min s = Some m -> In (Some m) s.
Proof.
  revert m. induction s as [|[y|] s IH]; simpl; intros m Hm.
  - discriminate.
  - destruct (min s) as [m'|] eqn:E.
    + injection Hm as <-. unfold Qmin'.
      destruct (Qle_bool y m'); [now left|right; now apply IH].
    + injection Hm as <-. now left.
  - right. now apply IH.
Qed.

Lemma min_le_max s mn mx : min s = Some mn -> max s = Some mx -> mn <= mx.
Proof.
  intros Hmn Hmx. eapply max_ge; [exact Hmx|]. now apply min_In.
Qed.

End SeriesFacts.

(** ** Group-by: what [transform] writes back *)

Module GroupByFacts.
Import Float Series GroupBy.

Lemma nth_cons_skipn {A} (l : list A) n d :
  (n < List.length l)%nat -> nth n l d :: skipn (S n) l = skipn n l.
Proof.
  revert n. induction l as [|a l IH]; intros [|n] H; simpl in *; try lia.
  - reflexivity.
  - apply IH. lia.
Qed.

Section Groups.
Variable K : Type.
Variable eqb : K -> K -> bool.

Lemma group_cons k k' keys v vals :
  group K eqb k (k' :: keys) (v :: vals) =
  if eqb k k' then v :: group K eqb k keys vals else group K eqb k keys vals.
Proof. unfold group. simpl. now destruct (eqb k k'). Qed.

Lemma group_length k keys vals :
  List.length keys = List.length vals ->
  List.length (group K eqb k keys vals) = occurrences K eqb k keys.
Proof.
  revert vals. induction keys as [|k' keys IH]; intros [|v vals] H;
    try discriminate; [reflexivity|].
  rewrite group_cons. unfold occurrences. simpl.
  destruct (eqb k k'); simpl; [f_equal|]; apply IH; simpl in H; lia.
Qed.

Lemma occurrences_app k l1 l2 :
  occurrences K eqb k (l1 ++ l2) =
  (occurrences K eqb k l1 + occurrences K eqb k l2)%nat.
Proof. unfold occurrences. now rewrite filter_app, length_app. Qed.

(** The same group, read off a list of rows. *)
Lemma group_of_rows {R} (kf : R -> K) (vf : R -> float) k (rows : list R) :
  group K eqb k (map kf rows) (map vf rows) =
  map vf (filter (fun r => eqb k (kf r)) rows).
Proof.
  induction rows as [|r rows IH]; [reflexivity|].
  cbn [map]. rewrite group_cons. simpl.
  destruct (eqb k (kf r)); simpl; now rewrite IH.
Qed.

End Groups.

Section Keyed.
Variable K : Type.
Variable eqb : K -> K -> bool.
Variable notnull : K -> bool.

(** A key that is not null is equal, in the sense of [eqb], only to itself. *)
Hypothesis eqb_eq : forall a b, notnull a = true -> eqb a b = true -> b = a.

Lemma transform_from_length f keys vals seen rest :
  List.length (transform_from K eqb notnull f keys vals seen rest) = List.length rest.
Proof.
  revert seen. induction rest as [|k rest IH]; intros seen; simpl; [reflexivity|].
  now rewrite IH.
Qed.

Lemma transform_length f keys vals :
  List.length (transform K eqb notnull f keys vals) = List.length keys.
Proof. apply transform_from_length. Qed.

Lemma transform_from_group f keys vals k :
  notnull k = true ->
  forall rest seen,
    (occurrences K eqb k seen + occurrences K eqb k rest)%nat =
      List.length (f (group K eqb k keys vals)) ->
    group K eqb k rest (transform_from K eqb notnull f keys vals seen rest) =
    skipn (occurrences K eqb k seen) (f (group K eqb k keys vals)).
Proof.
  intros Hk. induction rest as [|k' rest IH]; intros seen Hlen.
  - simpl. unfold occurrences at 2 in Hlen. simpl in Hlen.
    rewrite Nat.add_0_r in Hlen. rewrite Hlen.
    symmetry. apply skipn_all.
  - cbn [transform_from]. rewrite group_cons.
    assert (Hocc : occurrences K eqb k (k' :: rest) =
                   ((if eqb k k' then 1 else 0) + occurrences K eqb k rest)%nat).
    { unfold occurrences. simpl. now destruct (eqb k k'). }
    rewrite Hocc in Hlen.
    assert (Hone : occurrences K eqb k [k'] = if eqb k k' then 1%nat else 0%nat).
    { unfold occurrences. simpl. now destruct (eqb k k'). }
    rewrite IH.
    2:{ rewrite occurrences_app, Hone. destruct (eqb k k'); simpl in *; lia. }
    rewrite occurrences_app, Hone.
    destruct (eqb k k') eqn:E.
    + apply (eqb_eq _ _ Hk) in E. subst k'. rewrite Hk.
      rewrite Nat.add_1_r. apply nth_cons_skipn. simpl in Hlen. lia.
    + now rewrite Nat.add_0_r.
Qed.

(** Group by group, the transformed column is [f] of the group's values. *)
Lemma transform_group f keys vals k :
  List.length keys = List.length vals ->
  (forall s, List.length (f s) = List.length s) ->
  notnull k = true ->
  group K eqb k keys (transform K eqb notnull f keys vals) =
  f (group K eqb k keys vals).
Proof.
  intros Hlen Hf Hk. unfold transform.
  rewrite transform_from_group; [reflexivity|exact Hk|].
  rewrite Hf, group_length by exact Hlen. reflexivity.
Qed.

End Keyed.

End GroupByFacts.

(** ** The shape of the melted table *)

Module FrameFacts.
Import Float Series Exn Frame.

Lemma mem_In name l : mem name l = true <-> In name l.
Proof.
  unfold mem. rewrite existsb_exists. split.
  - intros [x [Hin Heq]]. apply String.eqb_eq in Heq. now subst.
  - intros Hin. exists name. split; [exact Hin|apply String.eqb_refl].
Qed.

Lemma get_length df M v :
  Forall (fun c => List.length (snd c) = M) df ->
  In v (columns df) ->
  List.length (get v df) = M.
Proof.
  induction 1 as [|c df Hc Hdf IH]; simpl; intros Hin; [contradiction|].
  destruct (String.eqb (fst c) v) eqn:E; [exact Hc|].
  destruct Hin as [Hin|Hin]; [|now apply IH].
  subst v. rewrite String.eqb_refl in E. discriminate.
Qed.

Lemma melt_length df id vars M :
  List.length (get id df) = M ->
  (forall v, In v vars -> List.length (get v df) = M) ->
  List.length (melt df id vars) = (List.length vars * M)%nat.
Proof.
  intros Hid. unfold melt.
  induction vars as [|v vars IH]; intros Hv; [reflexivity|].
  cbn [flat_map]. rewrite length_app, length_map, length_combine.
  rewrite Hid, (Hv v (or_introl eq_refl)), Nat.min_id.
  rewrite IH; [reflexivity|]. intros w Hw. apply Hv. now right.
Qed.

(** Row [i] of the block of the [j]-th value column. *)
Lemma melt_nth df id vars M j i d :
  List.length (get id df) = M ->
  (forall v, In v vars -> List.length (get v df) = M) ->
  (j < List.length vars)%nat -> (i < M)%nat ->
  nth (j * M + i) (melt df id vars) d =
  (nth i (get id df) CNull, nth j vars EmptyString,
   nth i (get (nth j vars EmptyString) df) CNull).
Proof.
  intros Hid. unfold melt. revert j.
  induction vars as [|v vars IH]; intros j Hv Hj Hi; [simpl in Hj; lia|].
  cbn [flat_map].
  assert (Hblock : List.length
            (map (fun p => (fst p, v, snd p)) (combine (get id df) (get v df))) = M).
  { rewrite length_map, length_combine, Hid, (Hv v (or_introl eq_refl)).
    apply Nat.min_id. }
  destruct j as [|j].
  - simpl. rewrite app_nth1 by lia.
    rewrite (nth_indep _ d (CNull, v, CNull)) by lia.
    change (CNull, v, CNull)
      with ((fun p : cell * cell => (fst p, v, snd p)) (CNull, CNull)).
    rewrite map_nth, combine_nth; [reflexivity|].
    now rewrite Hid, (Hv v (or_introl eq_refl)).
  - rewrite app_nth2 by (rewrite Hblock; simpl; lia).
    rewrite Hblock.
    replace (S j * M + i - M)%nat with (j * M + i)%nat by (simpl; lia).
    simpl in Hj. rewrite IH; [reflexivity| |lia|exact Hi].
    intros w Hw. apply Hv. now right.
Qed.

End FrameFacts.

(** ** What the reshaper returns *)

Module ReshapeFacts.
Import Float Series Exn Frame GroupBy Reshape FrameFacts GroupByFacts.

Local Open Scope string_scope.

Lemma mapM_Forall2 {A B} (f : A -> result B) l bs :
  mapM f l = OK bs -> Forall2 (fun a b => f a = OK b) l bs.
Proof.
  revert bs. induction l as [|a l IH]; simpl; intros bs H.
  - injection H as <-. constructor.
  - destruct (f a) as [b|e] eqn:Ea; simpl in H; [|discriminate].
    destruct (mapM f l) as [bs'|e] eqn:El; simpl in H; [|discriminate].
    injection H as <-. constructor; [exact Ea|now apply IH].
Qed.

Lemma mapM_total {A B} (f : A -> result B) l :
  Forall (fun a => exists b, f a = OK b) l -> exists bs, mapM f l = OK bs.
Proof.
  induction 1 as [|a l [b Hb] Hl [bs IH]]; simpl.
  - now exists [].
  - rewrite Hb, IH. simpl. now exists (b :: bs).
Qed.

Lemma Forall2_length' {A B} (P : A -> B -> Prop) l l' :
  Forall2 P l l' -> List.length l = List.length l'.
Proof. induction 1; simpl; congruence. Qed.

Lemma map_fst_combine' {A B} (a : list A) (b : list B) :
  List.length a = List.length b -> map fst (combine a b) = a.
Proof.
  revert b. induction a as [|x a IH]; intros [|y b] H; try discriminate;
    [reflexivity|]. simpl. f_equal. apply IH. simpl in H. lia.
Qed.

Lemma map_snd_combine' {A B} (a : list A) (b : list B) :
  List.length a = List.length b -> map snd (combine a b) = b.
Proof.
  revert b. induction a as [|x a IH]; intros [|y b] H; try discriminate;
    [reflexivity|]. simpl. f_equal. apply IH. simpl in H. lia.
Qed.

Lemma map_eq_Forall2 {A B C} (f : A -> C) (g : B -> C) l l' :
  map g l' = map f l -> Forall2 (fun a b => g b = f a) l l'.
Proof.
  revert l'. induction l as [|a l IH]; intros [|b l'] H; try discriminate.
  - constructor.
  - simpl in H. injection H as H1 H2. constructor; auto.
Qed.

Lemma Forall2_conj {A B} (P Q : A -> B -> Prop) l l' :
  Forall2 P l l' -> Forall2 Q l l' -> Forall2 (fun a b => P a b /\ Q a b) l l'.
Proof.
  induction 1; intros HQ; inversion HQ; subst; constructor; auto.
Qed.

Lemma Forall2_map_r {A B C} (P : A -> C -> Prop) (g : B -> C) l l' :
  Forall2 P l (map g l') -> Forall2 (fun a b => P a (g b)) l l'.
Proof.
  revert l'. induction l as [|a l IH]; intros [|b l'] H; inversion H; subst;
    constructor; auto.
Qed.

Lemma Forall2_map_l {A B C} (P : C -> B -> Prop) (g : A -> C) l l' :
  Forall2 P (map g l) l' -> Forall2 (fun a b => P (g a) b) l l'.
Proof.
  revert l'. induction l as [|a l IH]; intros [|b l'] H; inversion H; subst;
    constructor; auto.
Qed.

Lemma existsb_map' {A B} (f : A -> B) (p : B -> bool) l :
  existsb p (map f l) = existsb (fun a => p (f a)) l.
Proof. induction l as [|a l IH]; simpl; [reflexivity|now rewrite IH]. Qed.

Section Library.
Variable lib : library.

(** The columns of the long table, one by one. *)
Lemma preparar_columns df long :
  preparar_df_long lib df = OK long ->
  mem "Município" (columns df) = true /\
  existsb (fun r => tipo_notnull (snd (split_once (snd (fst r))))) (base df) = true /\
  map Municipio long = map (fun r => fst (fst r)) (base df) /\
  map ano_variavel long = map (fun r => snd (fst r)) (base df) /\
  Forall2 (fun r a => int_of_str lib (fst (split_once (snd (fst r)))) = Some a)
    (base df) (map ano long) /\
  map tipo long = map (fun r => snd (split_once (snd (fst r)))) (base df) /\
  map valor long = map (fun r => to_numeric lib (snd r)) (base df) /\
  map valor_minmax_tipo long =
    transform _ tipo_eqb tipo_notnull _minmax (map tipo long) (map valor long) /\
  map valor_zscore_tipo long =
    transform _ tipo_eqb tipo_notnull (_zscore lib) (map tipo long) (map valor long).
Proof.
  unfold preparar_df_long. fold (base df).
  destruct (mem "Município" (columns df)); [|discriminate]. cbn [negb].
  rewrite existsb_map'.
  destruct (existsb _ (base df)) eqn:Hsep; [|discriminate]. cbn [negb].
  destruct (mapM _ _) as [anos|e] eqn:Hanos; [|discriminate].
  cbn [bind]. intros H. injection H as <-.
  apply mapM_Forall2 in Hanos.
  assert (Hn : List.length (base df) = List.length anos).
  { apply Forall2_length' in Hanos. now rewrite length_map in Hanos. }
  set (tipos := map snd (map (fun r => split_once (snd (fst r))) (base df))) in *.
  set (valores := map (fun r => to_numeric lib (snd r)) (base df)) in *.
  set (mm := transform _ tipo_eqb tipo_notnull _minmax tipos valores).
  set (zs := transform _ tipo_eqb tipo_notnull (_zscore lib) tipos valores).
  assert (Ht : List.length tipos = List.length (base df))
    by (unfold tipos; now rewrite !length_map).
  assert (Hv : List.length valores = List.length (base df))
    by (unfold valores; now rewrite length_map).
  assert (Hmm : List.length mm = List.length (base df))
    by (unfold mm; now rewrite transform_length).
  assert (Hzs : List.length zs = List.length (base df))
    by (unfold zs; now rewrite transform_length).
  set (c1 := combine (base df) anos).
  set (c2 := combine c1 tipos). set (c3 := combine c2 valores).
  set (c4 := combine c3 mm). set (c5 := combine c4 zs).
  assert (L1 : List.length c1 = List.length (base df))
    by (unfold c1; rewrite length_combine; lia).
  assert (L2 : List.length c2 = List.length (base df))
    by (unfold c2; rewrite length_combine; lia).
  assert (L3 : List.length c3 = List.length (base df))
    by (unfold c3; rewrite length_combine; lia).
  assert (L4 : List.length c4 = List.length (base df))
    by (unfold c4; rewrite length_combine; lia).
  assert (P5 : map fst c5 = c4) by (apply map_fst_combine'; lia).
  assert (P4 : map fst c4 = c3) by (apply map_fst_combine'; lia).
  assert (P3 : map fst c3 = c2) by (apply map_fst_combine'; lia).
  assert (P2 : map fst c2 = c1) by (apply map_fst_combine'; lia).
  assert (P1 : map fst c1 = base df) by (apply map_fst_combine'; lia).
  assert (Ez : map valor_zscore_tipo (map build_row c5) = zs).
  { rewrite map_map. rewrite <- (map_snd_combine' c4 zs) by lia.
    apply map_ext. now intros [[[[[[[m n] c] a] t] v] x] z]. }
  assert (Em : map valor_minmax_tipo (map build_row c5) = mm).
  { rewrite map_map. rewrite <- (map_snd_combine' c3 mm) by lia.
    fold c4. rewrite <- P5, map_map.
    apply map_ext. now intros [[[[[[[m n] c] a] t] v] x] z]. }
  assert (Ev : map valor (map build_row c5) = valores).
  { rewrite map_map. rewrite <- (map_snd_combine' c2 valores) by lia.
    fold c3. rewrite <- P4, <- P5, !map_map.
    apply map_ext. now intros [[[[[[[m n] c] a] t] v] x] z]. }
  assert (Et : map tipo (map build_row c5) = tipos).
  { rewrite map_map. rewrite <- (map_snd_combine' c1 tipos) by lia.
    fold c2. rewrite <- P3, <- P4, <- P5, !map_map.
    apply map_ext. now intros [[[[[[[m n] c] a] t] v] x] z]. }
  assert (Ea : map ano (map build_row c5) = anos).
  { rewrite map_map. rewrite <- (map_snd_combine' (base df) anos) by lia.
    fold c1. rewrite <- P2, <- P3, <- P4, <- P5, !map_map.
    apply map_ext. now intros [[[[[[[m n] c] a] t] v] x] z]. }
  assert (Eb : map (fun x => fst (fst (fst (fst (fst x))))) c5 = base df).
  { rewrite <- P1. rewrite <- P2, <- P3, <- P4, <- P5, !map_map.
    reflexivity. }
  repeat split.
  - rewrite <- Eb. rewrite !map_map.
    apply map_ext. now intros [[[[[[[m n] c] a] t] v] x] z].
  - rewrite <- Eb. rewrite !map_map.
    apply map_ext. now intros [[[[[[[m n] c] a] t] v] x] z].
  - rewrite Ea. apply Forall2_map_l in Hanos.
    eapply Forall2_impl; [|exact Hanos].
    intros r a. cbn beta. unfold astype_int.
    destruct (int_of_str lib _); [|discriminate]. now intros [= ->].
  - rewrite Et. unfold tipos. now rewrite map_map.
  - exact Ev.
  - now rewrite Em, Et, Ev.
  - now rewrite Ez, Et, Ev.
Qed.

Lemma preparar_rows df long :
  preparar_df_long lib df = OK long -> Forall2 (row_of lib) (base df) long.
Proof.
  intros H. apply preparar_columns in H.
  destruct H as (_ & _ & Hm & Hn & Ha & Ht & Hv & _ & _).
  unfold row_of.
  apply Forall2_conj; [now apply map_eq_Forall2|].
  apply Forall2_conj; [now apply map_eq_Forall2|].
  apply Forall2_conj;
    [exact (Forall2_map_r
              (fun r a => int_of_str lib (fst (split_once (snd (fst r)))) = Some a)
              ano _ _ Ha)|].
  apply Forall2_conj; now apply map_eq_Forall2.
Qed.

Lemma preparar_length df long :
  preparar_df_long lib df = OK long -> List.length long = List.length (base df).
Proof.
  intros H. apply preparar_rows in H. symmetry. exact (Forall2_length' _ _ _ H).
Qed.

Lemma value_cols_In df v : In v (value_cols df) -> In v (columns df).
Proof. unfold value_cols. rewrite filter_In. tauto. Qed.

Lemma base_length df :
  rectangular df -> mem "Município" (columns df) = true ->
  List.length (base df) = (List.length (value_cols df) * nrows df)%nat.
Proof.
  intros Hr Hm. apply melt_length.
  - apply get_length; [exact Hr|now apply mem_In].
  - intros v Hv. apply get_length; [exact Hr|now apply value_cols_In].
Qed.

Lemma base_nth df j i d :
  rectangular df -> mem "Município" (columns df) = true ->
  (j < List.length (value_cols df))%nat -> (i < nrows df)%nat ->
  nth (j * nrows df + i) (base df) d =
  (nth i (get "Município" df) CNull, nth j (value_cols df) EmptyString,
   nth i (get (nth j (value_cols df) EmptyString) df) CNull).
Proof.
  intros Hr Hm Hj Hi. apply melt_nth; try assumption.
  - apply get_length; [exact Hr|now apply mem_In].
  - intros v Hv. apply get_length; [exact Hr|now apply value_cols_In].
Qed.

Lemma base_names df b : In b (base df) -> In (snd (fst b)) (value_cols df).
Proof.
  unfold base, melt. rewrite in_flat_map. intros [v [Hv Hb]].
  apply in_map_iff in Hb. destruct Hb as [p [<- _]]. exact Hv.
Qed.

Lemma Forall2_In_r {A B} (P : A -> B -> Prop) l l' b :
  Forall2 P l l' -> In b l' -> exists a, In a l /\ P a b.
Proof.
  induction 1 as [|a b' l l' Hab Hl IH]; simpl; [contradiction|].
  intros [<-|Hin].
  - exists a. auto.
  - destruct (IH Hin) as [a' [Ha' Hp]]. exists a'. auto.
Qed.

Lemma Forall2_nth {A B} (P : A -> B -> Prop) l l' k d :
  Forall2 P l l' -> (k < List.length l)%nat ->
  exists b, nth_error l' k = Some b /\ P (nth k l d) b.
Proof.
  intros H. revert k. induction H as [|a b l l' Hab Hl IH]; intros k Hk;
    simpl in Hk; [lia|].
  destruct k as [|k]; simpl.
  - exists b. auto.
  - apply IH. lia.
Qed.

(** The row of the long table for row [i] of the [j]-th value column. *)
Lemma long_row_at df long j i :
  rectangular df ->
  preparar_df_long lib df = OK long ->
  (j < List.length (value_cols df))%nat -> (i < nrows df)%nat ->
  exists r,
    nth_error long (j * nrows df + i) = Some r /\
    row_of lib
      (nth i (get "Município" df) CNull, nth j (value_cols df) EmptyString,
       nth i (get (nth j (value_cols df) EmptyString) df) CNull) r.
Proof.
  intros Hr H Hj Hi.
  pose proof (preparar_columns _ _ H) as (Hm & _).
  pose proof (preparar_rows _ _ H) as Hrows.
  rewrite <- (base_nth df j i (CNull, EmptyString, CNull) Hr Hm Hj Hi).
  apply Forall2_nth; [exact Hrows|].
  rewrite (base_length df Hr Hm). nia.
Qed.

Lemma split_once_app p rest :
  free_of "_" p -> split_once (p ++ String "_" rest) = (p, Some rest).
Proof.
  induction p as [|c p IH]; simpl; [reflexivity|].
  intros [Hc Hp]. destruct (Ascii.eqb c "_") eqn:E.
  - apply Ascii.eqb_eq in E. contradiction.
  - now rewrite (IH Hp).
Qed.

Lemma split_once_Some s t :
  snd (split_once s) = Some t ->
  s = fst (split_once s) ++ String "_" t /\ free_of "_" (fst (split_once s)).
Proof.
  induction s as [|c s IH]; simpl; [discriminate|].
  destruct (Ascii.eqb c "_") eqn:E; simpl.
  - apply Ascii.eqb_eq in E. subst c. intros [= ->]. split; [reflexivity|exact I].
  - intros H. destruct (IH H) as [Hs Hf]. split.
    + now rewrite <- Hs.
    + split; [|exact Hf]. intros ->. rewrite Ascii.eqb_refl in E. discriminate.
Qed.

(** A rectangular table with a municipality column, at least one row and
    at least one value column, all of them well named, is accepted. *)
Lemma preparar_accepts df :
  rectangular df ->
  mem "Município" (columns df) = true ->
  (0 < nrows df)%nat ->
  value_cols df <> [] ->
  Forall (well_named lib) (value_cols df) ->
  exists long, preparar_df_long lib df = OK long.
Proof.
  intros Hr Hm HM HN Hnames.
  unfold preparar_df_long. fold (base df). rewrite Hm. cbn [negb].
  rewrite existsb_map'.
  assert (Hsep : existsb (fun a => tipo_notnull (snd (split_once (snd (fst a)))))
                   (base df) = true).
  { apply existsb_exists.
    destruct (value_cols df) as [|v vs] eqn:Ev; [contradiction|].
    assert (Hj : (0 < List.length (value_cols df))%nat) by (rewrite Ev; simpl; lia).
    exists (nth (0 * nrows df + 0) (base df) (CNull, EmptyString, CNull)). split.
    - apply nth_In. rewrite (base_length df Hr Hm), Ev. simpl. lia.
    - rewrite (base_nth df 0 0 _ Hr Hm Hj HM). rewrite Ev. simpl.
      inversion Hnames as [|? ? [Hv _] _]. exact Hv. }
  rewrite Hsep. cbn [negb].
  destruct (mapM_total
              (fun p : string * option string => astype_int lib (fst p))
              (map (fun r => split_once (snd (fst r))) (base df))) as [anos Ha].
  { apply Forall_forall. intros p Hp. apply in_map_iff in Hp.
    destruct Hp as [b [<- Hb]]. apply base_names in Hb.
    rewrite Forall_forall in Hnames. destruct (Hnames _ Hb) as [_ Hint].
    unfold astype_int. destruct (int_of_str lib _) as [z|]; [now exists z|].
    contradiction. }
  rewrite Ha. cbn [bind]. eauto.
Qed.

End Library.

End ReshapeFacts.

(** ** The reshaper: size, column-name parsing, coercion, validation *)

Module ReshaperProps.
Import Float Series Exn Frame GroupBy Reshape App Reference.
Import FrameFacts SeriesFacts ReshapeFacts.

Local Open Scope string_scope.

(** C5. A wide table accepted by the reshaper, with N columns other than
    the municipality column and M rows, gives a long table of exactly
    N * M rows. *)
Theorem long_table_rows lib df long :
  rectangular df ->
  preparar_df_long lib df = OK long ->
  List.length long = (List.length (value_cols df) * nrows df)%nat.
Proof.
  intros Hr H. rewrite (preparar_length lib df long H).
  apply base_length; [exact Hr|].
  now destruct (preparar_columns lib df long H) as [Hm _].
Qed.

Lemma long_table_rows_witness :
  rectangular df_misto /\
  preparar_df_long reference df_misto = OK (long_of df_misto) /\
  List.length (long_of df_misto) = (3 * 3)%nat.
Proof.
  assert (Hr : rectangular df_misto) by (unfold rectangular; repeat constructor).
  assert (H : preparar_df_long reference df_misto = OK (long_of df_misto))
    by (vm_compute; reflexivity).
  split; [exact Hr|]. split; [exact H|].
  exact (long_table_rows reference df_misto (long_of df_misto) Hr H).
Defined.

(** C9. In every row of the long table, the year is the integer read from
    the part of the original column name before its first underscore, and
    the type is everything after that underscore, further underscores
    included. *)
Theorem year_and_type_of_row lib df long r prefix rest :
  preparar_df_long lib df = OK long ->
  In r long ->
  ano_variavel r = prefix ++ "_" ++ rest ->
  free_of "_" prefix ->
  In (ano_variavel r) (value_cols df) /\
  int_of_str lib prefix = Some (ano r) /\
  tipo r = Some rest.
Proof.
  intros H Hin Hname Hfree.
  destruct (Forall2_In_r _ _ _ _ (preparar_rows lib df long H) Hin)
    as [b [Hb (_ & Hn & Ha & Ht & _)]].
  rewrite <- Hn in Ha, Ht. rewrite Hname in Ha, Ht.
  change (prefix ++ "_" ++ rest) with (prefix ++ String "_" rest) in Ha, Ht.
  rewrite (split_once_app _ _ Hfree) in Ha, Ht.
  repeat split; try assumption.
  rewrite Hn. now apply base_names.
Qed.

Lemma year_and_type_of_row_witness :
  exists r, In r (long_of df_misto) /\
    ano_variavel r = "2017_covid_total" /\
    ano r = 2017%Z /\ tipo r = Some "covid_total".
Proof.
  set (r := nth 6 (long_of df_misto) (mk_row CNull "" 0 None None None None)).
  assert (H : preparar_df_long reference df_misto = OK (long_of df_misto))
    by (vm_compute; reflexivity).
  assert (Hin : In r (long_of df_misto)) by (vm_compute; tauto).
  assert (Hname : ano_variavel r = "2017" ++ "_" ++ "covid_total")
    by (vm_compute; reflexivity).
  assert (Hfree : free_of "_" "2017")
    by (simpl; repeat split; discriminate).
  destruct (year_and_type_of_row reference df_misto (long_of df_misto) r
              "2017" "covid_total" H Hin Hname Hfree) as (_ & Ha & Ht).
  exists r. split; [exact Hin|]. split; [exact Hname|]. split; [|exact Ht].
  reflexivity.
Defined.

(** C6. A table without the municipality column makes the reshaper raise
    its validation error instead of returning a long table, and the script
    reports the error and stops: no chart and no summary is produced. *)
Theorem missing_municipio_halts lib df w :
  mem "Município" (columns df) = false ->
  preparar_df_long lib df =
    Raise (ValueError "Coluna 'Município' não encontrada em df_final.parquet.") /\
  main lib (Some df) w =
    [st_error "Erro ao preparar df_long: Coluna 'Município' não encontrada em df_final.parquet.";
     st_stop] /\
  existsb is_chart_or_aggregate (main lib (Some df) w) = false.
Proof.
  intros Hm.
  assert (H : preparar_df_long lib df =
    Raise (ValueError "Coluna 'Município' não encontrada em df_final.parquet.")).
  { unfold preparar_df_long. now rewrite Hm. }
  split; [exact H|].
  unfold main. rewrite H. split; reflexivity.
Qed.

Lemma missing_municipio_halts_witness :
  mem "Município" (columns df_sem_municipio) = false /\
  existsb is_chart_or_aggregate (main reference (Some df_sem_municipio) widgets_geral)
    = false.
Proof.
  assert (Hm : mem "Município" (columns df_sem_municipio) = false) by reflexivity.
  split; [exact Hm|].
  exact (proj2 (proj2 (missing_municipio_halts reference df_sem_municipio
                         widgets_geral Hm))).
Defined.



End ReshaperProps.

(** ** The two normalisations on one series *)

Module NormalizerFacts.
Import Float Series Exn Frame GroupBy Reshape App Degenerate.
Import FloatFacts SeriesFacts GroupByFacts ReshapeFacts.

Lemma count_option_map (f : Q -> Q) s : count (map (option_map f) s) = count s.
Proof. induction s as [|[x|] s IH]; simpl; congruence. Qed.

Lemma minmax_length s : List.length (_minmax s) = List.length s.
Proof.
  unfold _minmax, zeros, div_scalar, sub_scalar.
  destruct (min s), (max s); try destruct (Qeq_bool _ _);
    now rewrite ?length_map.
Qed.

Lemma zscore_length lib s : List.length (_zscore lib s) = List.length s.
Proof.
  unfold _zscore, zeros, div_scalar, sub_scalar.
  destruct (mean s), (std (sqrt lib) s); try destruct (Qeq_bool _ _);
    now rewrite ?length_map.
Qed.

Lemma tipo_eqb_eq a b : tipo_notnull a = true -> tipo_eqb a b = true -> b = a.
Proof.
  destruct a as [s|], b as [t|]; simpl; try discriminate.
  intros _ H. apply String.eqb_eq in H. now subst.
Qed.

Lemma tipo_eqb_sym a b : tipo_eqb a b = tipo_eqb b a.
Proof. destruct a, b; simpl; auto using String.eqb_sym. Qed.

(** Within the rows of one type, a transformed column is the transform of
    that type's values. *)
Lemma transform_by_type (f : series -> series) (col : long_row -> float) t long :
  (forall s, List.length (f s) = List.length s) ->
  map col long =
    transform _ tipo_eqb tipo_notnull f (map tipo long) (map valor long) ->
  map col (filtra_tipo t long) = f (map valor (filtra_tipo t long)).
Proof.
  intros Hf Hcol.
  assert (Hfil : forall g : long_row -> float,
             map g (filtra_tipo t long) =
             group _ tipo_eqb (Some t) (map tipo long) (map g long)).
  { intros g. rewrite group_of_rows. unfold filtra_tipo. f_equal.
    apply filter_ext. intros r. apply tipo_eqb_sym. }
  rewrite !Hfil, Hcol.
  apply transform_group; [exact tipo_eqb_eq|now rewrite !length_map|exact Hf|reflexivity].
Qed.

Section Library.
Variable lib : library.

Lemma minmax_by_type df long t :
  preparar_df_long lib df = OK long ->
  map valor_minmax_tipo (filtra_tipo t long) =
  _minmax (map valor (filtra_tipo t long)).
Proof.
  intros H. apply preparar_columns in H.
  destruct H as (_ & _ & _ & _ & _ & _ & _ & Hmm & _).
  apply transform_by_type; [exact minmax_length|exact Hmm].
Qed.

Lemma zscore_by_type df long t :
  preparar_df_long lib df = OK long ->
  map valor_zscore_tipo (filtra_tipo t long) =
  _zscore lib (map valor (filtra_tipo t long)).
Proof.
  intros H. apply preparar_columns in H.
  destruct H as (_ & _ & _ & _ & _ & _ & _ & _ & Hzs).
  apply transform_by_type; [exact (zscore_length lib)|exact Hzs].
Qed.

End Library.

(** *** Min-max *)

Lemma minmax_degenerate_zeros s : minmax_degenerate s -> _minmax s = zeros s.
Proof.
  unfold _minmax. intros [(mn & mx & Hmn & Hmx & E)|Hall].
  - rewrite Hmn, Hmx. apply Qeq_bool_iff in E. now rewrite E.
  - apply min_None in Hall. now rewrite Hall.
Qed.

Lemma minmax_regular s :
  ~ minmax_degenerate s ->
  exists mn mx,
    min s = Some mn /\ max s = Some mx /\ mn < mx /\
    _minmax s = div_scalar (sub_scalar s mn) (mx - mn).
Proof.
  intros Hnd. unfold _minmax.
  destruct (min s) as [mn|] eqn:Hmn.
  2:{ exfalso. apply Hnd. right. now apply min_None. }
  destruct (max s) as [mx|] eqn:Hmx.
  2:{ exfalso. apply Hnd. right. now apply max_None. }
  destruct (Qeq_bool mx mn) eqn:E.
  - exfalso. apply Hnd. left. exists mn, mx. apply Qeq_bool_iff in E. auto.
  - exists mn, mx. repeat split; try reflexivity.
    apply Qeq_bool_false in E.
    pose proof (min_le_max s mn mx Hmn Hmx) as Hle.
    apply Qle_lteq in Hle. destruct Hle as [Hlt|Heq]; [exact Hlt|].
    exfalso. apply E. now symmetry.
Qed.

Lemma unit_interval_of_range mn mx x :
  mn < mx -> mn <= x -> x <= mx ->
  0 <= (x - mn) / (mx - mn) /\ (x - mn) / (mx - mn) <= 1.
Proof.
  intros Hlt Hlo Hhi.
  assert (Hd : 0 < mx - mn) by lra.
  split.
  - apply Qle_shift_div_l; [exact Hd|]. lra.
  - apply Qle_shift_div_r; [exact Hd|]. lra.
Qed.

Lemma map_eq_In {A B} (f g : A -> B) l a :
  map f l = map g l -> In a l -> f a = g a.
Proof.
  induction l as [|b l IH]; simpl; [contradiction|].
  intros [= H1 H2] [<-|Hin]; auto.
Qed.

(** *** Z-score *)

Lemma of_nat_S n : of_nat (S n) == of_nat n + 1.
Proof.
  unfold of_nat. rewrite Nat2Z.inj_succ, <- Z.add_1_r, inject_Z_plus. reflexivity.
Qed.

Lemma of_nat_pos n : 0 < of_nat (S n).
Proof.
  unfold of_nat. change 0 with (inject_Z 0). rewrite <- Zlt_Qlt. lia.
Qed.

Lemma of_nat_nonneg n : 0 <= of_nat n.
Proof.
  unfold of_nat. change 0 with (inject_Z 0). rewrite <- Zle_Qle. lia.
Qed.

Lemma sum_sub_scalar s c :
  sum (sub_scalar s c) == sum s - of_nat (count s) * c.
Proof.
  induction s as [|[x|] s IH]; cbn [sub_scalar map option_map sum count].
  - unfold of_nat. simpl. ring.
  - fold (sub_scalar s c). rewrite IH, of_nat_S. ring.
  - exact IH.
Qed.

Lemma sum_div_scalar s c : sum (div_scalar s c) == sum s / c.
Proof.
  induction s as [|[x|] s IH]; cbn [div_scalar map option_map sum].
  - unfold Qdiv. ring.
  - fold (div_scalar s c). rewrite IH. unfold Qdiv. ring.
  - exact IH.
Qed.

Lemma mean_Some s m :
  mean s = Some m ->
  exists n, count s = S n /\ m = sum s / of_nat (S n).
Proof.
  unfold mean. destruct (count s) as [|n]; [discriminate|].
  intros [= <-]. now exists n.
Qed.

Lemma std_Some sqrt s sd : std sqrt s = Some sd -> exists m, mean s = Some m.
Proof.
  unfold std, var. destruct (mean s) as [m|]; [eauto|discriminate].
Qed.

Lemma zscore_degenerate_zeros lib s :
  std_undefined_or_zero (sqrt lib) s -> _zscore lib s = zeros s.
Proof.
  unfold std_undefined_or_zero, _zscore.
  destruct (std (sqrt lib) s) as [sd|] eqn:Hsd.
  - intros E. destruct (std_Some _ _ _ Hsd) as [m ->].
    apply Qeq_bool_iff in E. now rewrite E.
  - intros _. now destruct (mean s).
Qed.

Lemma zscore_regular lib s :
  ~ std_undefined_or_zero (sqrt lib) s ->
  exists m sd,
    mean s = Some m /\ std (sqrt lib) s = Some sd /\ ~ sd == 0 /\
    _zscore lib s = div_scalar (sub_scalar s m) sd.
Proof.
  unfold std_undefined_or_zero, _zscore.
  destruct (std (sqrt lib) s) as [sd|] eqn:Hsd; [|tauto].
  intros Hnz. destruct (std_Some _ _ _ Hsd) as [m Hm]. rewrite Hm.
  exists m, sd. repeat split; try assumption.
  destruct (Qeq_bool sd 0) eqn:E; [|reflexivity].
  apply Qeq_bool_iff in E. contradiction.
Qed.

(** The z-scores of a series with mean [m] add up to zero. *)
Lemma sum_zscore_zero s m sd :
  mean s = Some m -> ~ sd == 0 ->
  sum (div_scalar (sub_scalar s m) sd) == 0.
Proof.
  intros Hm Hsd. destruct (mean_Some _ _ Hm) as [n [Hn ->]].
  rewrite sum_div_scalar, sum_sub_scalar, Hn.
  pose proof (of_nat_pos n) as Hpos.
  field. split; [|exact Hsd]. intros E. rewrite E in Hpos.
  exact (Qlt_irrefl _ Hpos).
Qed.

Lemma mean_zscore_zero s m sd :
  mean s = Some m -> ~ sd == 0 ->
  exists q, mean (div_scalar (sub_scalar s m) sd) = Some q /\ q == 0.
Proof.
  intros Hm Hsd. pose proof (sum_zscore_zero s m sd Hm Hsd) as Hsum.
  destruct (mean_Some _ _ Hm) as [n [Hn _]].
  unfold mean. unfold div_scalar, sub_scalar in *.
  rewrite !count_option_map, Hn.
  eexists. split; [reflexivity|].
  rewrite Hsum. unfold Qdiv. ring.
Qed.

(** *** The two notions of a degenerate group agree *)

Lemma max_In s m : max s = Some m -> In (Some m) s.
Proof.
  revert m. induction s as [|[y|] s IH]; simpl; intros m Hm.
  - discriminate.
  - destruct (max s) as [m'|] eqn:E.
    + injection Hm as <-. unfold Qmax'.
      destruct (Qle_bool y m'); [right; now apply IH|now left].
    + injection Hm as <-. now left.
  - right. now apply IH.
Qed.

Lemma sum_sq_nonneg s : 0 <= sum (sq s).
Proof.
  induction s as [|[x|] s IH]; cbn [sq map option_map sum].
  - apply Qle_refl.
  - fold (sq s). assert (Hx : 0 <= x * x) by nra. lra.
  - exact IH.
Qed.

Lemma sum_sq_zero s x : sum (sq s) == 0 -> In (Some x) s -> x == 0.
Proof.
  induction s as [|[y|] s IH]; cbn [sq map option_map sum]; simpl In.
  - contradiction.
  - fold (sq s). intros Hs Hin.
    pose proof (sum_sq_nonneg s) as Hrest.
    assert (Hyy : 0 <= y * y) by nra.
    destruct Hin as [Hin|Hin].
    + injection Hin as ->. nra.
    + apply IH; [|exact Hin]. lra.
  - intros Hs [Hin|Hin]; [discriminate|auto].
Qed.

Lemma sum_sq_all_zero s :
  (forall x, In (Some x) s -> x == 0) -> sum (sq s) == 0.
Proof.
  induction s as [|[y|] s IH]; cbn [sq map option_map sum]; intros Hall.
  - reflexivity.
  - fold (sq s). rewrite IH by (intros x Hx; apply Hall; now right).
    rewrite (Hall y) by now left. ring.
  - apply IH. intros x Hx. apply Hall. now right.
Qed.

Lemma In_sub_scalar s c y :
  In (Some y) (sub_scalar s c) <-> exists x, In (Some x) s /\ y = x - c.
Proof.
  unfold sub_scalar. rewrite in_map_iff. split.
  - intros [[x|] [Hy Hin]]; simpl in Hy; [|discriminate].
    injection Hy as <-. eauto.
  - intros [x [Hin ->]]. exists (Some x). auto.
Qed.

Lemma min_equals_max_constant s :
  min_equals_max s <-> exists v, constant_at v s.
Proof.
  split.
  - intros (mn & mx & Hmn & Hmx & E). exists mn. split; [now apply min_In|].
    intros x Hx. apply Qle_antisym.
    + rewrite <- E. exact (max_ge _ _ _ Hmx Hx).
    + exact (min_le _ _ _ Hmn Hx).
  - intros [v [Hv Hall]].
    destruct (min s) as [mn|] eqn:Hmn.
    2:{ apply min_None in Hmn. destruct (count_0_no_Some _ _ Hmn Hv). }
    destruct (max s) as [mx|] eqn:Hmx.
    2:{ apply max_None in Hmx. destruct (count_0_no_Some _ _ Hmx Hv). }
    exists mn, mx. split; [exact Hmn|]. split; [exact Hmx|].
    rewrite (Hall _ (max_In _ _ Hmx)), (Hall _ (min_In _ _ Hmn)). reflexivity.
Qed.

Lemma sum_constant s v :
  (forall x, In (Some x) s -> x == v) -> sum s == of_nat (count s) * v.
Proof.
  induction s as [|[y|] s IH]; cbn [sum count]; intros Hall.
  - unfold of_nat. simpl. ring.
  - rewrite IH by (intros x Hx; apply Hall; now right).
    rewrite (Hall y) by now left. rewrite of_nat_S. ring.
  - apply IH. intros x Hx. apply Hall. now right.
Qed.

Lemma count_pos_In s : (0 < count s)%nat -> exists x, In (Some x) s.
Proof.
  induction s as [|[y|] s IH]; simpl; intros H.
  - lia.
  - exists y. now left.
  - destruct (IH H) as [x Hx]. exists x. now right.
Qed.

Lemma count_1_constant s : count s = 1%nat -> exists v, constant_at v s.
Proof.
  induction s as [|[y|] s IH]; simpl; intros H.
  - discriminate.
  - exists y. split; [now left|]. intros x [Hx|Hx].
    + injection Hx as ->. reflexivity.
    + exfalso. injection H as H. exact (count_0_no_Some _ _ H Hx).
  - destruct (IH H) as [v [Hv Hall]]. exists v. split; [now right|].
    intros x [Hx|Hx]; [discriminate|auto].
Qed.

Lemma mean_None s : mean s = None -> count s = O.
Proof. unfold mean. destruct (count s); [reflexivity|discriminate]. Qed.

Lemma sum_sq_dev_zero s m :
  sum (sq (sub_scalar s m)) == 0 <-> (forall x, In (Some x) s -> x == m).
Proof.
  split.
  - intros Hs x Hx.
    assert (Hd : x - m == 0).
    { apply (sum_sq_zero _ _ Hs). apply In_sub_scalar. eauto. }
    lra.
  - intros Hall. apply sum_sq_all_zero. intros y Hy.
    apply In_sub_scalar in Hy. destruct Hy as [x [Hx ->]].
    rewrite (Hall x Hx). ring.
Qed.

Lemma Qdiv_zero_iff a b : 0 < b -> (a / b == 0 <-> a == 0).
Proof.
  intros Hb. split; intros H.
  - assert (E : a == (a / b) * b) by (field; lra). rewrite E, H. ring.
  - rewrite H. unfold Qdiv. ring.
Qed.

(** With an exact square root, the minimum equals the maximum (or nothing
    is present) exactly when the standard deviation is undefined or zero. *)
Lemma degenerate_agree sqrt s :
  sqrt_zero_iff sqrt ->
  (minmax_degenerate s <-> std_undefined_or_zero sqrt s).
Proof.
  intros Hsqrt. unfold std_undefined_or_zero, std, var.
  destruct (mean s) as [m|] eqn:Hm.
  2:{ simpl. split; [tauto|]. intros _. right. now apply mean_None. }
  destruct (mean_Some _ _ Hm) as [n [Hn Em]].
  rewrite Hn. destruct n as [|n].
  - simpl. split; [tauto|]. intros _. left.
    apply min_equals_max_constant. now apply count_1_constant.
  - cbn [Nat.leb option_map].
    replace (S (S n) - 1)%nat with (S n) by lia.
    set (V := sum (sq (sub_scalar s m)) / of_nat (S n)).
    assert (HV : 0 <= V).
    { unfold V. apply Qle_shift_div_l; [apply of_nat_pos|].
      rewrite Qmult_0_l. apply sum_sq_nonneg. }
    rewrite (Hsqrt V HV). unfold V.
    rewrite (Qdiv_zero_iff _ _ (of_nat_pos n)), sum_sq_dev_zero.
    split.
    + intros [Hc|Hall]; [|unfold all_missing in Hall; lia].
      apply min_equals_max_constant in Hc. destruct Hc as [v [Hv Hall]].
      assert (Emv : m == v).
      { rewrite Em, (sum_constant s v Hall), Hn.
        pose proof (of_nat_pos (S n)) as Hpos. field. lra. }
      intros x Hx. rewrite Emv. now apply Hall.
    + intros Hall. left. apply min_equals_max_constant.
      destruct (count_pos_In s) as [x0 Hx0]; [lia|].
      exists x0. split; [exact Hx0|].
      intros x Hx. rewrite (Hall x Hx), (Hall x0 Hx0). reflexivity.
Qed.

(** *** Row by row *)

Section Rows.
Variable lib : library.
Variable df : DataFrame.
Variable long : list long_row.
Variable t : string.
Hypothesis accepted : preparar_df_long lib df = OK long.

Lemma minmax_row r :
  In r (filtra_tipo t long) ->
  (minmax_degenerate (map valor (filtra_tipo t long)) ->
   valor_minmax_tipo r = Some 0) /\
  (~ minmax_degenerate (map valor (filtra_tipo t long)) ->
   match valor r with
   | Some _ => in_unit_interval (valor_minmax_tipo r)
   | None => valor_minmax_tipo r = NaN
   end).
Proof.
  intros Hin. pose proof (minmax_by_type lib df long t accepted) as Hcol.
  set (rows := filtra_tipo t long) in *. split.
  - intros Hd. rewrite (minmax_degenerate_zeros _ Hd) in Hcol.
    unfold zeros in Hcol. rewrite map_map in Hcol.
    exact (map_eq_In _ _ _ _ Hcol Hin).
  - intros Hnd.
    destruct (minmax_regular _ Hnd) as (mn & mx & Hmn & Hmx & Hlt & Hreg).
    rewrite Hreg in Hcol. unfold div_scalar, sub_scalar in Hcol.
    rewrite !map_map in Hcol.
    rewrite (map_eq_In _ _ _ _ Hcol Hin).
    destruct (valor r) as [x|] eqn:Hx; [|reflexivity].
    assert (Hxin : In (Some x) (map valor rows)).
    { rewrite <- Hx. now apply in_map. }
    exists ((x - mn) / (mx - mn)). split; [reflexivity|].
    apply unit_interval_of_range;
      [exact Hlt|exact (min_le _ _ _ Hmn Hxin)|exact (max_ge _ _ _ Hmx Hxin)].
Qed.

Lemma zscore_row r :
  In r (filtra_tipo t long) ->
  (std_undefined_or_zero (sqrt lib) (map valor (filtra_tipo t long)) ->
   valor_zscore_tipo r = Some 0) /\
  (~ std_undefined_or_zero (sqrt lib) (map valor (filtra_tipo t long)) ->
   (valor_zscore_tipo r = NaN <-> valor r = NaN)).
Proof.
  intros Hin. pose proof (zscore_by_type lib df long t accepted) as Hcol.
  set (rows := filtra_tipo t long) in *. split.
  - intros Hd. rewrite (zscore_degenerate_zeros _ _ Hd) in Hcol.
    unfold zeros in Hcol. rewrite map_map in Hcol.
    exact (map_eq_In _ _ _ _ Hcol Hin).
  - intros Hnd.
    destruct (zscore_regular _ _ Hnd) as (m & sd & _ & _ & _ & Hreg).
    rewrite Hreg in Hcol. unfold div_scalar, sub_scalar in Hcol.
    rewrite !map_map in Hcol.
    rewrite (map_eq_In _ _ _ _ Hcol Hin).
    unfold NaN. destruct (valor r); simpl; split; congruence.
Qed.

End Rows.

End NormalizerFacts.

(** ** The reference square root *)

Module ReferenceFacts.
Import Float Series Reshape Degenerate Reference FloatFacts.

Lemma heron_pos n x y : 0 < x -> 0 < y -> 0 < heron n x y.
Proof.
  revert y. induction n as [|n IH]; intros y Hx Hy; cbn [heron]; [exact Hy|].
  apply IH; [exact Hx|]. rewrite Qred_correct.
  assert (Hq : 0 < x / y).
  { unfold Qdiv. apply Qmult_lt_0_compat; [exact Hx|].
    now apply Qinv_lt_0_compat. }
  apply Qlt_shift_div_l; lra.
Qed.

Lemma sqrt_approx_zero_iff : sqrt_zero_iff sqrt_approx.
Proof.
  intros x Hx. unfold sqrt_approx. destruct (Qle_bool x 0) eqn:E.
  - apply Qle_bool_iff in E. split; intros _; [now apply Qle_antisym|reflexivity].
  - apply Qle_bool_false in E.
    assert (Hpos : 0 < heron 5 x (Qred ((x + 1) / 2))).
    { apply heron_pos; [exact E|]. rewrite Qred_correct.
      apply Qlt_shift_div_l; lra. }
    split; intros H; exfalso.
    + rewrite H in Hpos. exact (Qlt_irrefl _ Hpos).
    + rewrite H in E. exact (Qlt_irrefl _ E).
Qed.

End ReferenceFacts.

(** ** The normaliser, type by type *)

Module NormalizerProps.
Import Float Series Exn Frame GroupBy Reshape App Degenerate Reference.
Import FloatFacts SeriesFacts GroupByFacts ReshapeFacts NormalizerFacts.
Import ReferenceFacts.

Local Open Scope string_scope.



(** The values of type "geral" in the sample table are within the bound. *)
Lemma within_bound_geral :
  Forall within_bound (map valor (filtra_tipo "geral" (long_of df_misto))).
Proof.
  assert (E : map valor (filtra_tipo "geral" (long_of df_misto)) =
              [Some 1; None; Some 3; Some 2; None; Some 5])
    by (vm_compute; reflexivity).
  rewrite E.
  repeat (apply Forall_cons; [first [exact I|split; discriminate]|]).
  apply Forall_nil.
Qed.


(** In exact arithmetic, for every type of the long table: if the standard
    deviation of the type's values is undefined or zero, every row of the
    type has z-score exactly 0.0; otherwise the z-score is missing exactly
    on the rows whose value is missing, and the mean of the z-scores over
    the other rows is exactly zero.  [RoundingProps] shows where binary64
    departs from this. *)
Lemma zscore_mean_zero_exact lib df long t :
  preparar_df_long lib df = OK long ->
  (std_undefined_or_zero (sqrt lib) (map valor (filtra_tipo t long)) ->
   Forall (fun r => valor_zscore_tipo r = Some 0) (filtra_tipo t long)) /\
  (~ std_undefined_or_zero (sqrt lib) (map valor (filtra_tipo t long)) ->
   (exists q, mean (map valor_zscore_tipo (filtra_tipo t long)) = Some q /\ q == 0) /\
   Forall (fun r => valor_zscore_tipo r = NaN <-> valor r = NaN) (filtra_tipo t long)).
Proof.
  intros H. split.
  - intros Hd. apply Forall_forall. intros r Hin.
    now apply (zscore_row lib df long t H r Hin).
  - intros Hnd. split.
    + rewrite (zscore_by_type lib df long t H).
      destruct (zscore_regular _ _ Hnd) as (m & sd & Hm & _ & Hsd & ->).
      exact (mean_zscore_zero _ _ _ Hm Hsd).
    + apply Forall_forall. intros r Hin.
      now apply (zscore_row lib df long t H r Hin).
Qed.

Lemma zscore_mean_zero_exact_witness :
  exists q,
    mean (map valor_zscore_tipo (filtra_tipo "geral" (long_of df_misto))) = Some q /\
    q == 0.
Proof.
  assert (H : preparar_df_long reference df_misto = OK (long_of df_misto))
    by (vm_compute; reflexivity).
  destruct (zscore_mean_zero_exact reference df_misto (long_of df_misto) "geral" H)
    as [_ Hreg].
  apply Hreg. intros E. vm_compute in E. discriminate E.
Defined.

(** In exact arithmetic, with a square root that is exact at zero: take a
    row of the long table whose value is missing, and the values of its
    type.  If they are degenerate (minimum equal to maximum, standard
    deviation zero or undefined, or all missing), the row's min-max value
    and z-score are both exactly 0.0; if they are not, both are missing.
    [RoundingProps] shows where binary64 departs from this. *)
Lemma missing_value_rows_exact lib df long t r :
  sqrt_zero_iff (sqrt lib) ->
  preparar_df_long lib df = OK long ->
  In r (filtra_tipo t long) ->
  valor r = NaN ->
  (degenerate (sqrt lib) (map valor (filtra_tipo t long)) ->
   valor_minmax_tipo r = Some 0 /\ valor_zscore_tipo r = Some 0) /\
  (~ degenerate (sqrt lib) (map valor (filtra_tipo t long)) ->
   valor_minmax_tipo r = NaN /\ valor_zscore_tipo r = NaN).
Proof.
  intros Hsqrt H Hin Hv.
  pose proof (degenerate_agree (sqrt lib) (map valor (filtra_tipo t long)) Hsqrt)
    as Hagree.
  destruct (minmax_row lib df long t H r Hin) as [Hm0 Hm1].
  destruct (zscore_row lib df long t H r Hin) as [Hz0 Hz1].
  rewrite Hv in Hm1. split.
  - intros Hd.
    assert (Hmm : minmax_degenerate (map valor (filtra_tipo t long))).
    { destruct Hd as [Hd|[Hd|Hd]]; [now left|now apply Hagree|now right]. }
    split; [now apply Hm0|]. apply Hz0. now apply Hagree.
  - intros Hnd. split.
    + apply Hm1. intros [Hd|Hd]; apply Hnd; [now left|now right; right].
    + apply Hz1; [|exact Hv]. intros Hd. apply Hnd. right. now left.
Qed.

Lemma missing_value_rows_exact_witness :
  let r := mk_row (CStr "B") "2017_geral" 2017 (Some "geral") None None None in
  In r (long_of df_misto) /\
  valor_minmax_tipo r = NaN /\ valor_zscore_tipo r = NaN.
Proof.
  intros r.
  assert (H : preparar_df_long reference df_misto = OK (long_of df_misto))
    by (vm_compute; reflexivity).
  assert (Hin : In r (filtra_tipo "geral" (long_of df_misto)))
    by (vm_compute; tauto).
  split; [vm_compute; tauto|].
  apply (missing_value_rows_exact reference df_misto (long_of df_misto) "geral" r
           sqrt_approx_zero_iff H Hin eq_refl).
  intros [(mn & mx & Hmn & Hmx & E)|[Hd|Hall]].
  - vm_compute in Hmn, Hmx. injection Hmn as <-. injection Hmx as <-.
    vm_compute in E. discriminate E.
  - vm_compute in Hd. discriminate Hd.
  - vm_compute in Hall. discriminate Hall.
Defined.

End NormalizerProps.

(** ** The normaliser in binary64: rounding, overflow, infinite values *)

Module RoundingProps.
Import PrimFloat Binary64.

Local Open Scope float_scope.

(** C4. The code departs from the claim on a constant group.  For the
    three values 0.1, 0.1, 0.1 of one type the minimum equals the maximum
    and the standard deviation is zero, so that the claim gives every row
    the z-score 0.0.  In binary64 the sum 0.1 + 0.1 + 0.1 is rounded up,
    the mean comes out as 0.10000000000000002, and the standard deviation
    as 1.7e-17 rather than 0: the test [std == 0] fails, and every row gets
    the z-score -0.8165.  The z-scores are not 0.0, and their mean is
    -0.8165, not zero. *)
Theorem zscore_of_constant_group :
  (min constant_group =? max constant_group) = true /\
  mean constant_group = 0x1.999999999999bp-4 /\
  std constant_group = 0x1.3988e1409212ep-56 /\
  _zscore constant_group =
    [- 0x1.a20bd700c2c3fp-1; - 0x1.a20bd700c2c3fp-1; - 0x1.a20bd700c2c3fp-1] /\
  mean (_zscore constant_group) = - 0x1.a20bd700c2c3fp-1.
Proof. repeat split; vm_compute; reflexivity. Qed.

(** C10. The code departs from the claim on a constant group with a
    missing value.  For the values 0.1, 0.1, 0.1, NaN of one type the
    minimum equals the maximum, so that the claim gives the fourth row
    min-max value 0.0 and z-score 0.0.  In binary64 the fourth row gets the
    min-max value 0.0, but the standard deviation comes out as 1.7e-17
    rather than 0, the test [std == 0] fails, and the fourth row's z-score
    is missing. *)
Theorem missing_row_of_constant_group :
  (min constant_group_with_gap =? max constant_group_with_gap) = true /\
  _minmax constant_group_with_gap = [0; 0; 0; 0] /\
  std constant_group_with_gap = 0x1.3988e1409212ep-56 /\
  map isna (_zscore constant_group_with_gap) = [false; false; false; true].
Proof. repeat split; vm_compute; reflexivity. Qed.

(** An infinite value leaves the row that carries it with a missing
    min-max value: infinity less the minimum, over infinity. *)
Lemma minmax_of_infinite_value :
  map isna (_minmax group_with_infinity) = [false; false; true].
Proof. vm_compute. reflexivity. Qed.

(** So does a range that overflows: between -2^1023 and 2^1023 the
    difference of maximum and minimum is infinite. *)
Lemma minmax_of_wide_range :
  map isna (_minmax group_of_wide_range) = [false; false; true].
Proof. vm_compute. reflexivity. Qed.

(** Distinct values can share a min-max value: next to -2^60 and 2^60, the
    values 0.1 and 0.2 both come out as 0.5. *)
Lemma minmax_of_close_values :
  _minmax group_of_close_values = [0; 0.5; 0.5; 1].
Proof. vm_compute. reflexivity. Qed.

End RoundingProps.

(** ** Sorting by value *)

Module SortFacts.
Import Float Series GroupBy FloatFacts.

Section Sort.
Variable A : Type.
Variable leb : A -> A -> bool.
Hypothesis leb_total : forall a b, leb a b = true \/ leb b a = true.

Lemma insert_perm x l : Permutation (x :: l) (insert A leb x l).
Proof.
  induction l as [|y l IH]; simpl; [apply Permutation_refl|].
  destruct (leb x y); [apply Permutation_refl|].
  eapply perm_trans; [apply perm_swap|]. now apply perm_skip.
Qed.

Lemma sort_perm l : Permutation l (sort A leb l).
Proof.
  induction l as [|x l IH]; simpl; [apply perm_nil|].
  eapply perm_trans; [apply perm_skip; exact IH|apply insert_perm].
Qed.

Lemma insert_hdrel a x l :
  leb a x = true ->
  HdRel (fun u v => leb u v = true) a l ->
  HdRel (fun u v => leb u v = true) a (insert A leb x l).
Proof.
  intros Hax Hl. destruct l as [|y l]; simpl.
  - now constructor.
  - destruct (leb x y); constructor; [exact Hax|now inversion Hl].
Qed.

Lemma insert_sorted x l :
  Sorted (fun u v => leb u v = true) l ->
  Sorted (fun u v => leb u v = true) (insert A leb x l).
Proof.
  induction 1 as [|y l Hs IH Hhd]; simpl.
  - repeat constructor.
  - destruct (leb x y) eqn:E.
    + constructor; [now constructor|now constructor].
    + constructor; [exact IH|].
      apply insert_hdrel; [|exact Hhd].
      destruct (leb_total x y) as [H|H]; [congruence|exact H].
Qed.

Lemma sort_sorted l : Sorted (fun u v => leb u v = true) (sort A leb l).
Proof.
  induction l as [|x l IH]; simpl; [constructor|now apply insert_sorted].
Qed.

End Sort.

Lemma desc_leb_total a b : desc_leb a b = true \/ desc_leb b a = true.
Proof.
  destruct a as [x|], b as [y|]; simpl; auto.
  destruct (Qle_bool y x) eqn:E; [now left|right].
  apply Qle_bool_false in E. apply Qle_bool_iff. now apply Qlt_le_weak.
Qed.

Lemma asc_leb_total a b : asc_leb a b = true \/ asc_leb b a = true.
Proof.
  destruct a as [x|], b as [y|]; simpl; auto.
  destruct (Qle_bool x y) eqn:E; [now left|right].
  apply Qle_bool_false in E. apply Qle_bool_iff. now apply Qlt_le_weak.
Qed.

Lemma asc_leb_trans a b c :
  asc_leb a b = true -> asc_leb b c = true -> asc_leb a c = true.
Proof.
  destruct a as [x|], b as [y|], c as [z|]; simpl; try congruence.
  rewrite !Qle_bool_iff. apply Qle_trans.
Qed.

Lemma sort_values_perm {K} ascending (s : list (K * float)) :
  Permutation s (sort_values ascending s).
Proof. apply sort_perm. Qed.

Lemma sort_values_desc {K} (s : list (K * float)) :
  Sorted (fun a b => desc_leb (snd a) (snd b) = true) (sort_values false s).
Proof.
  unfold sort_values. apply sort_sorted.
  intros a b. apply desc_leb_total.
Qed.

Lemma sort_values_asc {K} (s : list (K * float)) :
  Sorted (fun a b => asc_leb (snd a) (snd b) = true) (sort_values true s).
Proof.
  unfold sort_values. apply sort_sorted.
  intros a b. apply asc_leb_total.
Qed.

End SortFacts.

(** ** One entry per group *)

Module RankFacts.
Import Float Series Frame GroupBy FloatFacts GroupByFacts.

Section Unique.
Variable K : Type.
Variable eqb : K -> K -> bool.

Lemma unique_from_sound seen keys k :
  In k (unique_from K eqb seen keys) ->
  In k keys /\ existsb (eqb k) seen = false.
Proof.
  revert seen. induction keys as [|k0 keys IH]; intros seen; simpl; [contradiction|].
  destruct (existsb (eqb k0) seen) eqn:E.
  - intros H. destruct (IH _ H). auto.
  - intros [<-|H]; [auto|].
    destruct (IH _ H) as [Hin Hex]. simpl in Hex.
    apply orb_false_iff in Hex. tauto.
Qed.

Lemma unique_from_complete seen keys k :
  eqb k k = true ->
  In k keys ->
  existsb (eqb k) seen = true \/
  exists k', In k' (unique_from K eqb seen keys) /\ eqb k k' = true.
Proof.
  intros Hrefl. revert seen.
  induction keys as [|k0 keys IH]; intros seen; simpl; [contradiction|].
  intros [->|Hin].
  - destruct (existsb (eqb k) seen) eqn:E; [now left|right].
    exists k. split; [now left|exact Hrefl].
  - destruct (existsb (eqb k0) seen) eqn:E; [now apply IH|].
    destruct (IH (k0 :: seen) Hin) as [H|[k' [Hk' He]]].
    + simpl in H. apply orb_true_iff in H. destruct H as [H|H]; [|now left].
      right. exists k0. split; [now left|exact H].
    + right. exists k'. split; [now right|exact He].
Qed.

(** No key of the result equals, by [eqb], a key that comes before it. *)
Lemma unique_from_distinct seen keys :
  ForallOrdPairs (fun a b => eqb b a = false) (unique_from K eqb seen keys).
Proof.
  revert seen. induction keys as [|k0 keys IH]; intros seen; simpl; [constructor|].
  destruct (existsb (eqb k0) seen); [apply IH|].
  constructor; [|apply IH].
  apply Forall_forall. intros b Hb.
  apply unique_from_sound in Hb. destruct Hb as [_ Hex]. simpl in Hex.
  apply orb_false_iff in Hex. tauto.
Qed.

End Unique.

Section Keyed.
Variable K : Type.
Variable eqb : K -> K -> bool.
Variable notnull : K -> bool.

Lemma groupby_mean_In keys vals k v :
  In (k, v) (groupby_mean K eqb notnull keys vals) <->
  In k (unique K eqb (filter notnull keys)) /\ v = mean (group K eqb k keys vals).
Proof.
  unfold groupby_mean. rewrite in_map_iff. split.
  - intros [k' [[= <- <-] Hin]]. auto.
  - intros [Hin ->]. exists k. auto.
Qed.

Lemma groupby_mean_keys keys vals :
  map fst (groupby_mean K eqb notnull keys vals) = unique K eqb (filter notnull keys).
Proof.
  unfold groupby_mean. rewrite map_map. simpl. apply map_id.
Qed.

End Keyed.

Lemma FOP_map {A B} (f : A -> B) (R : B -> B -> Prop) l :
  ForallOrdPairs R (map f l) -> ForallOrdPairs (fun a b => R (f a) (f b)) l.
Proof.
  induction l as [|a l IH]; simpl; intros H; [constructor|].
  inversion H as [|? ? Hall Hrest]; subst. constructor; [|now apply IH].
  rewrite Forall_map in Hall. exact Hall.
Qed.

Lemma FOP_impl {A} (R R' : A -> A -> Prop) l :
  (forall a b, R a b -> R' a b) -> ForallOrdPairs R l -> ForallOrdPairs R' l.
Proof.
  intros Himp. induction 1 as [|a l Hall Hrest IH]; constructor; [|exact IH].
  eapply Forall_impl; [|exact Hall]. apply Himp.
Qed.

(** Pairwise properties that hold both ways survive a permutation. *)
Lemma FOP_perm {A} (R : A -> A -> Prop) l l' :
  (forall a b, R a b -> R b a) ->
  Permutation l l' -> ForallOrdPairs R l -> ForallOrdPairs R l'.
Proof.
  intros Hsym. induction 1 as [|x l l' Hp IH|x y l|l l' l'' H1 IH1 H2 IH2]; intros H.
  - exact H.
  - inversion H as [|? ? Hall Hrest]; subst. constructor; [|now apply IH].
    eapply Permutation_Forall; eassumption.
  - inversion H as [|? ? Hy Hrest]; subst.
    inversion Hrest as [|? ? Hx Hl]; subst.
    inversion Hy as [|? ? Hyx Hyl]; subst.
    constructor; [constructor; [now apply Hsym|exact Hx]|].
    now constructor.
  - auto.
Qed.

Lemma cell_eqb_sym a b : cell_eqb a b = cell_eqb b a.
Proof.
  destruct a as [x| s|], b as [y|t|]; simpl; try reflexivity.
  - destruct (Qeq_bool x y) eqn:E1, (Qeq_bool y x) eqn:E2; try reflexivity.
    + apply Qeq_bool_iff in E1. symmetry in E1. apply Qeq_bool_iff in E1. congruence.
    + apply Qeq_bool_iff in E2. symmetry in E2. apply Qeq_bool_iff in E2. congruence.
  - apply String.eqb_sym.
Qed.

Lemma cell_eqb_refl a : cell_notna a = true -> cell_eqb a a = true.
Proof.
  destruct a as [x|s|]; simpl; intros H; try discriminate.
  - apply Qeq_bool_iff. reflexivity.
  - apply String.eqb_refl.
Qed.

End RankFacts.

(** ** Ranking the municipalities of one type *)

Module RankingProps.
Import Float Series Exn Frame GroupBy Reshape App Reference.
Import FloatFacts SeriesFacts GroupByFacts SortFacts RankFacts.

Local Open Scope string_scope.

Lemma tipo_eqb_Some a t : tipo_eqb a (Some t) = true <-> a = Some t.
Proof.
  destruct a as [s|]; simpl; [|split; discriminate].
  rewrite String.eqb_eq. split; congruence.
Qed.

(** C8, as stated, does not hold: the ranking is not restricted to the
    municipalities that have a value.  In the sample table municipality B
    has no value of type "geral" at all, and still appears in the ranking,
    with a missing mean. *)
Lemma rank_restriction_counterexample :
  ~ (forall lib df long t m v,
       preparar_df_long lib df = OK long ->
       count (map valor (filtra_tipo t long)) <> O ->
       In (m, v) (rank_media (filtra_tipo t long)) ->
       exists r, In r (filtra_tipo t long) /\
                 cell_eqb m (Municipio r) = true /\ valor r <> NaN).
Proof.
  intros H.
  destruct (H reference df_misto (long_of df_misto) "geral" (CStr "B") NaN)
    as [r [Hin [Hm Hv]]].
  - vm_compute. reflexivity.
  - vm_compute. discriminate.
  - vm_compute. tauto.
  - vm_compute in Hin.
    repeat (destruct Hin as [<-|Hin];
            [vm_compute in Hm, Hv; congruence|]).
    exact Hin.
Qed.

(** C8, amended.  For the chosen type, the rank-by-type query keeps the rows
    of that type; when none of them carries a value the section only warns;
    otherwise it groups all of them by municipality (null municipalities
    apart), one entry per municipality, whether or not the municipality has
    a value; an entry's mean is taken over the values present, and is
    missing when the municipality has none; the entries come by descending
    mean, missing means last, and the first three are reported. *)
Theorem rank_by_type (long : list long_row) (w : widgets) :
  let d := filtra_tipo (tipo_escolhido w) long in
  (forall r, In r d <-> In r long /\ tipo r = Some (tipo_escolhido w)) /\
  Sorted (fun a b => desc_leb (snd a) (snd b) = true) (rank_media d) /\
  (forall m v, In (m, v) (rank_media d) ->
     cell_notna m = true /\
     (exists r, In r d /\ Municipio r = m) /\
     v = mean (map valor (filter (fun r => cell_eqb m (Municipio r)) d))) /\
  (forall r, In r d -> cell_notna (Municipio r) = true ->
     exists m v, In (m, v) (rank_media d) /\ cell_eqb m (Municipio r) = true) /\
  ForallOrdPairs (fun a b => cell_eqb (fst a) (fst b) = false) (rank_media d) /\
  (count (map valor d) = O -> exists msg, secao1 long w = [st_warning msg]) /\
  (count (map valor d) <> O ->
     exists dados,
       secao1 long w =
       [st_pyplot dados;
        st_markdown (Resumo1 (firstn 3 (rank_media d)) (tendencia_global d))]).
Proof.
  intros d.
  set (g := groupby_mean _ cell_eqb cell_notna (map Municipio d) (map valor d)).
  assert (Hperm : Permutation g (rank_media d)) by apply sort_values_perm.
  split; [|split; [|split; [|split; [|split; [|split]]]]].
  - intros r. unfold d, filtra_tipo. rewrite filter_In, tipo_eqb_Some. tauto.
  - apply sort_values_desc.
  - intros m v Hin.
    apply (Permutation_in _ (Permutation_sym Hperm)) in Hin.
    apply groupby_mean_In in Hin. destruct Hin as [Hk ->].
    apply unique_from_sound in Hk. destruct Hk as [Hk _].
    apply filter_In in Hk. destruct Hk as [Hk Hnn].
    apply in_map_iff in Hk. destruct Hk as [r [Hr Hin]].
    split; [exact Hnn|]. split; [exists r; auto|].
    now rewrite group_of_rows.
  - intros r Hin Hnn.
    assert (Hk : In (Municipio r) (filter cell_notna (map Municipio d))).
    { apply filter_In. split; [now apply in_map|exact Hnn]. }
    destruct (unique_from_complete _ cell_eqb [] _ _ (cell_eqb_refl _ Hnn) Hk)
      as [H|[k' [Hk' He]]].
    + discriminate H.
    + exists k', (mean (group _ cell_eqb k' (map Municipio d) (map valor d))).
      split; [|now rewrite cell_eqb_sym].
      apply (Permutation_in _ Hperm). apply groupby_mean_In. auto.
  - apply (FOP_perm _ g).
    + intros a b. now rewrite cell_eqb_sym.
    + exact Hperm.
    + apply (FOP_impl (fun a b => cell_eqb (fst b) (fst a) = false)).
      * intros a b. now rewrite cell_eqb_sym.
      * apply (FOP_map fst (fun a b => cell_eqb b a = false)).
        unfold g. rewrite groupby_mean_keys. apply unique_from_distinct.
  - intros H0. unfold secao1. fold d. rewrite H0. simpl. eauto.
  - intros Hn. unfold secao1. fold d.
    destruct (count (map valor d)) as [|n]; [contradiction|]. simpl. eauto.
Qed.

End RankingProps.

(** ** The trend check of section 1 *)

Module TrendProps.
Import Float Series Exn Frame GroupBy Reshape App Reference.
Import FloatFacts SeriesFacts SortFacts.

Local Open Scope string_scope.

Lemma last_In {A} (l : list A) x d : In (last (x :: l) d) (x :: l).
Proof.
  revert x. induction l as [|y l IH]; intros x; [now left|].
  right. exact (IH y).
Qed.

(** The yearly means are ordered by value before their first and last
    entries are read: the first is the smallest mean, whatever its year. *)
Lemma media_ano_first_le_last d :
  (2 <= List.length (media_ano d))%nat ->
  asc_leb (snd (hd (0%Z, NaN) (media_ano d)))
          (snd (last (media_ano d) (0%Z, NaN))) = true.
Proof.
  intros Hlen.
  pose proof (sort_values_asc
                (groupby_mean _ Z.eqb (fun _ => true) (map ano d) (map valor d)))
    as Hs.
  fold (media_ano d) in Hs.
  apply Sorted_StronglySorted in Hs.
  2:{ intros a b c. apply asc_leb_trans. }
  destruct (media_ano d) as [|x [|y l]]; simpl in Hlen; try lia.
  inversion Hs as [|? ? _ Hall]; subst.
  rewrite Forall_forall in Hall. cbn [hd]. apply Hall.
  change (last (x :: y :: l) (0%Z, NaN)) with (last (y :: l) (0%Z, NaN)).
  apply last_In.
Qed.

(** When no yearly mean is negative or missing, the sentence about growth
    is never chosen, whatever the chronological course of the means. *)
Lemma growth_unreachable d :
  (forall y v, In (y, v) (media_ano d) -> exists q, v = Some q /\ 0 <= q) ->
  rotulo_de (tendencia_global d) <> growth.
Proof.
  intros Hpos. unfold tendencia_global.
  destruct (2 <=? List.length (media_ano d))%nat eqn:Hlen; [|discriminate].
  apply Nat.leb_le in Hlen.
  pose proof (media_ano_first_le_last d Hlen) as Hle.
  destruct (media_ano d) as [|x l] eqn:E; [simpl in Hlen; lia|].
  assert (Hx : In x (x :: l)) by now left.
  assert (Hl : In (last (x :: l) (0%Z, NaN)) (x :: l)) by apply last_In.
  destruct x as [yx vx]. destruct (last ((yx, vx) :: l) (0%Z, NaN)) as [yl vl].
  destruct (Hpos _ _ Hx) as [a [-> Ha]]. destruct (Hpos _ _ Hl) as [b [-> Hb]].
  cbn [hd fst snd] in *. simpl in Hle. apply Qle_bool_iff in Hle.
  assert (Hgt : gt (Some a) (mul (Some b) (Some (105 # 100))) = false).
  { simpl. unfold Qlt_bool. apply negb_false_iff. apply Qle_bool_iff.
    assert (H105 : b * (105 # 100) == b + b * (5 # 100)) by ring.
    assert (H5 : 0 <= b * (5 # 100)) by (apply Qmult_le_0_compat; [exact Hb|discriminate]).
    lra. }
  rewrite Hgt. destruct (lt _ _); discriminate.
Qed.

(** C1, on the input of its example.  With yearly means 100 in 2017 and 94
    in 2018 for the type "geral", the means are read in the order 94 (2018),
    100 (2017), and the sentence chosen is the one about decline, where the
    rule of the specification, applied to the means of the first and of the
    last year, gives growth. *)
Theorem trend_100_94_is_decline :
  let d := filtra_tipo "geral" (long_of df_100_94) in
  preparar_df_long reference df_100_94 = OK (long_of df_100_94) /\
  (exists lo hi,
     media_ano d = [(2018%Z, Some lo); (2017%Z, Some hi)] /\
     lo == 94 /\ hi == 100) /\
  rotulo_de (tendencia_global d) = decline /\
  rotulo_spec (Some 100) (Some 94) = growth.
Proof.
  intros d. split; [vm_compute; reflexivity|]. split.
  - eexists. eexists. split; [vm_compute; reflexivity|]. split; reflexivity.
  - split; vm_compute; reflexivity.
Qed.

End TrendProps.

(** ** Distinct keys of a table made of blocks *)

Module UniqueFacts.
Import GroupBy.

Section Leibniz.
Variable K : Type.
Variable eqb : K -> K -> bool.
Hypothesis eqb_eq : forall a b, eqb a b = true <-> a = b.

Lemma seen_In k seen : existsb (eqb k) seen = true <-> In k seen.
Proof.
  rewrite existsb_exists. split.
  - intros [x [Hin He]]. apply eqb_eq in He. now subst.
  - intros Hin. exists k. split; [exact Hin|now apply eqb_eq].
Qed.

Lemma seen_ext k s1 s2 :
  (forall x, In x s1 <-> In x s2) ->
  existsb (eqb k) s1 = existsb (eqb k) s2.
Proof.
  intros H. destruct (existsb (eqb k) s1) eqn:E1, (existsb (eqb k) s2) eqn:E2;
    try reflexivity.
  - apply seen_In, H, seen_In in E1. congruence.
  - apply seen_In, H, seen_In in E2. congruence.
Qed.

Lemma unique_from_ext l s1 s2 :
  (forall x, In x s1 <-> In x s2) ->
  unique_from K eqb s1 l = unique_from K eqb s2 l.
Proof.
  revert s1 s2. induction l as [|k l IH]; intros s1 s2 H; simpl; [reflexivity|].
  rewrite (seen_ext k s1 s2 H).
  destruct (existsb (eqb k) s2); [now apply IH|].
  f_equal. apply IH. intros x. simpl. rewrite H. tauto.
Qed.

Lemma unique_from_all_seen l seen :
  (forall k, In k l -> In k seen) -> unique_from K eqb seen l = [].
Proof.
  induction l as [|k l IH]; intros H; simpl; [reflexivity|].
  assert (E : existsb (eqb k) seen = true) by (apply seen_In, H; now left).
  rewrite E. apply IH. intros x Hx. apply H. now right.
Qed.

Lemma unique_from_NoDup l seen :
  NoDup l -> (forall k, In k l -> ~ In k seen) -> unique_from K eqb seen l = l.
Proof.
  intros Hnd. revert seen. induction Hnd as [|k l Hk Hnd IH]; intros seen H;
    simpl; [reflexivity|].
  destruct (existsb (eqb k) seen) eqn:E.
  - apply seen_In in E. destruct (H k (or_introl eq_refl) E).
  - f_equal. apply IH. intros x Hx [Hs|Hs]; [now subst|].
    exact (H x (or_intror Hx) Hs).
Qed.

Lemma unique_from_app l1 l2 seen :
  unique_from K eqb seen (l1 ++ l2) =
  unique_from K eqb seen l1 ++ unique_from K eqb (l1 ++ seen) l2.
Proof.
  revert seen. induction l1 as [|k l1 IH]; intros seen; simpl; [reflexivity|].
  destruct (existsb (eqb k) seen) eqn:E.
  - rewrite IH. f_equal. apply unique_from_ext.
    apply seen_In in E. intros x. simpl. rewrite !in_app_iff.
    split; [tauto|]. intros [->|H]; tauto.
  - simpl. f_equal. rewrite IH. f_equal. apply unique_from_ext.
    intros x. simpl. rewrite !in_app_iff. simpl. tauto.
Qed.

(** Whole copies of a duplicate-free list of keys, one after another. *)
Lemma unique_copies {V} (ms : list K) (v : V) (vs : list V) :
  NoDup ms -> unique K eqb (flat_map (fun _ => ms) (v :: vs)) = ms.
Proof.
  intros Hnd. unfold unique. cbn [flat_map]. rewrite unique_from_app.
  rewrite (unique_from_NoDup ms [] Hnd) by (intros k _ []).
  rewrite unique_from_all_seen; [apply app_nil_r|].
  intros k Hk. apply in_flat_map in Hk. destruct Hk as [_ [_ Hk]].
  apply in_app_iff. now left.
Qed.

(** Runs of equal keys, one run per key of a duplicate-free list. *)
Lemma unique_from_runs (ks : list K) M seen :
  (0 < M)%nat -> NoDup ks -> (forall k, In k ks -> ~ In k seen) ->
  unique_from K eqb seen (flat_map (fun k => repeat k M) ks) = ks.
Proof.
  intros HM Hnd. revert seen.
  induction Hnd as [|k ks Hk Hnd IH]; intros seen H; [reflexivity|].
  cbn [flat_map]. rewrite unique_from_app.
  destruct M as [|M]; [lia|]. cbn [repeat unique_from].
  destruct (existsb (eqb k) seen) eqn:E.
  { apply seen_In in E. destruct (H k (or_introl eq_refl) E). }
  rewrite unique_from_all_seen.
  2:{ intros x Hx. apply repeat_spec in Hx. subst. now left. }
  simpl. f_equal. apply IH.
  intros x Hx Hs. destruct Hs as [Hs|Hs]; [subst; contradiction|].
  apply in_app_iff in Hs. destruct Hs as [Hs|Hs].
  - apply repeat_spec in Hs. subst. contradiction.
  - exact (H x (or_intror Hx) Hs).
Qed.

End Leibniz.

(** The distinct keys of an image, for key equalities that agree. *)
Lemma unique_from_map {A B} (f : A -> B) eqbA eqbB seen l :
  (forall a b, eqbB (f a) (f b) = eqbA a b) ->
  unique_from B eqbB (map f seen) (map f l) = map f (unique_from A eqbA seen l).
Proof.
  intros H. revert seen. induction l as [|a l IH]; intros seen; simpl; [reflexivity|].
  assert (E : existsb (eqbB (f a)) (map f seen) = existsb (eqbA a) seen).
  { induction seen as [|s seen IHs]; simpl; [reflexivity|]. now rewrite H, IHs. }
  rewrite E. destruct (existsb (eqbA a) seen); [apply IH|].
  simpl. f_equal. exact (IH (a :: seen)).
Qed.

End UniqueFacts.

(** ** The long table as a grid of municipalities and keys *)

Module PivotFacts.
Import Float Series Exn Frame GroupBy Reshape Pivot.
Import FrameFacts ReshapeFacts UniqueFacts.

Local Open Scope string_scope.

Lemma filter_none {A} (p : A -> bool) l :
  (forall a, In a l -> p a = false) -> filter p l = [].
Proof.
  induction l as [|a l IH]; intros H; simpl; [reflexivity|].
  rewrite (H a (or_introl eq_refl)). apply IH. intros b Hb. apply H. now right.
Qed.

(** A test that holds at position [i] and nowhere else selects that entry. *)
Lemma filter_unique_nth {A} (p : A -> bool) l i d :
  (i < List.length l)%nat ->
  p (nth i l d) = true ->
  (forall j, (j < List.length l)%nat -> j <> i -> p (nth j l d) = false) ->
  filter p l = [nth i l d].
Proof.
  revert i. induction l as [|a l IH]; intros i Hi Hp Hother; simpl in Hi; [lia|].
  destruct i as [|i]; simpl in *.
  - rewrite Hp. f_equal. apply filter_none. intros b Hb.
    destruct (In_nth _ _ d Hb) as [j [Hj <-]].
    apply (Hother (S j)); lia.
  - rewrite (Hother 0%nat) by lia.
    apply IH; [lia|exact Hp|].
    intros j Hj Hne. apply (Hother (S j)); lia.
Qed.

Lemma mapM_nth {A B} (f : A -> result B) l out d d' :
  List.length out = List.length l ->
  (forall i, (i < List.length l)%nat -> f (nth i l d) = OK (nth i out d')) ->
  mapM f l = OK out.
Proof.
  revert out. induction l as [|a l IH]; intros [|b out] Hlen H; try discriminate.
  - reflexivity.
  - assert (H0 : f a = OK b) by (apply (H 0%nat); simpl; lia).
    simpl. rewrite H0. simpl.
    rewrite (IH out); [reflexivity|simpl in Hlen; lia|].
    intros i Hi. apply (H (S i)). simpl. lia.
Qed.

Lemma flat_map_map {A B C} (f : B -> list C) (g : A -> B) l :
  flat_map f (map g l) = flat_map (fun a => f (g a)) l.
Proof. induction l as [|a l IH]; simpl; [reflexivity|now rewrite IH]. Qed.

Lemma map_flat_map {A B C} (f : A -> list B) (g : B -> C) l :
  map g (flat_map f l) = flat_map (fun a => map g (f a)) l.
Proof.
  induction l as [|a l IH]; simpl; [reflexivity|]. now rewrite map_app, IH.
Qed.

Lemma flat_map_ext_in {A B} (f g : A -> list B) l :
  (forall a, In a l -> f a = g a) -> flat_map f l = flat_map g l.
Proof.
  induction l as [|a l IH]; intros H; simpl; [reflexivity|].
  rewrite (H a (or_introl eq_refl)), IH; [reflexivity|].
  intros b Hb. apply H. now right.
Qed.

Lemma map_const_repeat {A B} (b : B) (l : list A) :
  map (fun _ => b) l = repeat b (List.length l).
Proof. induction l as [|a l IH]; simpl; [reflexivity|now rewrite IH]. Qed.

(** The municipality column of the melted table: the municipalities, once
    per value column. *)
Lemma base_municipios df :
  rectangular df -> mem "Município" (columns df) = true ->
  map (fun b => fst (fst b)) (base df) =
  flat_map (fun _ => get "Município" df) (value_cols df).
Proof.
  intros Hr Hm. unfold base, melt. rewrite map_flat_map.
  apply flat_map_ext_in. intros v Hv. rewrite map_map. cbn [fst].
  change (fun x : cell * cell => fst x) with (@fst cell cell).
  apply map_fst_combine'.
  rewrite (get_length df (nrows df) v Hr (value_cols_In _ _ Hv)).
  apply get_length; [exact Hr|now apply mem_In].
Qed.

(** Its name column: every column name, once per row. *)
Lemma base_nomes df :
  rectangular df -> mem "Município" (columns df) = true ->
  map (fun b => snd (fst b)) (base df) =
  flat_map (fun v => repeat v (nrows df)) (value_cols df).
Proof.
  intros Hr Hm. unfold base, melt. rewrite map_flat_map.
  apply flat_map_ext_in. intros v Hv. rewrite map_map. cbn [fst snd].
  rewrite map_const_repeat, length_combine.
  rewrite (get_length df (nrows df) v Hr (value_cols_In _ _ Hv)).
  rewrite (get_length df (nrows df) _ Hr (proj1 (mem_In _ _) Hm)).
  now rewrite Nat.min_id.
Qed.

Lemma key_eqb_eq a b : key_eqb a b = true <-> a = b.
Proof.
  destruct a as [y s], b as [z t]. unfold key_eqb. cbn [fst snd].
  rewrite andb_true_iff, Z.eqb_eq.
  destruct s as [s|], t as [t|].
  - rewrite String.eqb_eq. split; [intros [-> ->]; reflexivity|].
    intros [= -> ->]. auto.
  - split; [intros [_ H]; discriminate|discriminate].
  - split; [intros [_ H]; discriminate|discriminate].
  - split; [intros [-> _]; reflexivity|]. intros [= ->]. auto.
Qed.

Lemma names_are_strings ms :
  Forall is_name ms -> exists names, ms = map CStr names.
Proof.
  induction 1 as [|c ms Hc _ [names ->]]; [now exists []|].
  destruct c as [q|s|]; try contradiction. now exists (s :: names).
Qed.

Lemma cell_eqb_names a b :
  is_name a -> is_name b -> (cell_eqb a b = true <-> a = b).
Proof.
  destruct a as [?|s|], b as [?|t|]; simpl; try contradiction.
  intros _ _. rewrite String.eqb_eq. split; congruence.
Qed.

Lemma Forall2_map_eq {A B C} (f : A -> C) (g : B -> C) l l' :
  Forall2 (fun a b => g b = f a) l l' -> map g l' = map f l.
Proof. induction 1; simpl; congruence. Qed.

Section Grid.
Variable lib : library.
Variable df : DataFrame.
Variable long : list long_row.
Hypothesis rect : rectangular df.
Hypothesis accepted : preparar_df_long lib df = OK long.

Lemma has_municipio : mem "Município" (columns df) = true.
Proof. now destruct (preparar_columns lib df long accepted) as [H _]. Qed.

Lemma municipios_length : List.length (get "Município" df) = nrows df.
Proof. apply get_length; [exact rect|apply mem_In, has_municipio]. Qed.

Lemma value_col_length v :
  In v (value_cols df) -> List.length (get v df) = nrows df.
Proof. intros Hv. apply get_length; [exact rect|now apply value_cols_In]. Qed.

(** An accepted table has at least one row and one value column. *)
Lemma grid_nonempty : (0 < nrows df)%nat /\ (0 < List.length (value_cols df))%nat.
Proof.
  destruct (preparar_columns lib df long accepted) as (Hm & Hsep & _).
  assert (Hb : (0 < List.length (base df))%nat).
  { destruct (base df); [discriminate Hsep|simpl; lia]. }
  rewrite (base_length df rect Hm) in Hb. nia.
Qed.

Lemma row_key b r :
  row_of lib b r -> key_of_name lib (snd (fst b)) = Some (key_of_row r).
Proof.
  intros (_ & _ & Ha & Ht & _). unfold key_of_name, key_of_row.
  now rewrite Ha, Ht.
Qed.

Lemma key_of_value_col v :
  In v (value_cols df) ->
  key_of_name lib v = Some (key_or_default lib v).
Proof.
  intros Hv. destruct (In_nth _ _ EmptyString Hv) as [j [Hj Ev]].
  destruct grid_nonempty as [HM _].
  destruct (long_row_at lib df long j 0 rect accepted Hj HM) as [r [_ Hrow]].
  apply row_key in Hrow. cbn [fst snd] in Hrow. rewrite Ev in Hrow.
  unfold key_or_default. now rewrite Hrow.
Qed.

Lemma long_municipios :
  map Municipio long = flat_map (fun _ => get "Município" df) (value_cols df).
Proof.
  destruct (preparar_columns lib df long accepted) as (Hm & _ & HM & _).
  rewrite HM. now apply base_municipios.
Qed.

Lemma long_keys :
  map key_of_row long =
  flat_map (fun k => repeat k (nrows df)) (map (key_or_default lib) (value_cols df)).
Proof.
  pose proof (preparar_rows lib df long accepted) as Hrows.
  assert (E : map key_of_row long =
              map (key_or_default lib) (map (fun b => snd (fst b)) (base df))).
  { rewrite map_map. apply Forall2_map_eq.
    eapply Forall2_impl; [|exact Hrows].
    intros b r Hrow. cbn beta. unfold key_or_default.
    now rewrite (row_key b r Hrow). }
  rewrite E, (base_nomes df rect has_municipio), map_flat_map, flat_map_map.
  apply flat_map_ext_in. intros v _. now rewrite map_repeat.
Qed.

Hypothesis names : Forall is_name (get "Município" df).
Hypothesis distinct_municipios : NoDup (get "Município" df).
Hypothesis distinct_keys : NoDup (map (key_of_name lib) (value_cols df)).

Lemma distinct_defaults : NoDup (map (key_or_default lib) (value_cols df)).
Proof.
  apply (NoDup_map_inv Some). rewrite map_map.
  erewrite map_ext_in; [exact distinct_keys|].
  intros v Hv. symmetry. now apply key_of_value_col.
Qed.

(** The rows of the pivot are the municipalities of the wide table. *)
Lemma pivot_index :
  unique _ cell_eqb (map Municipio long) = get "Município" df.
Proof.
  rewrite long_municipios.
  destruct (names_are_strings _ names) as [ns Ens].
  rewrite Ens in *.
  destruct grid_nonempty as [_ HN].
  destruct (value_cols df) as [|v vs]; [simpl in HN; lia|].
  assert (E : flat_map (fun _ : string => map CStr ns) (v :: vs) =
              map CStr (flat_map (fun _ : string => ns) (v :: vs))).
  { now rewrite map_flat_map. }
  rewrite E. unfold unique.
  change (@nil cell) with (map CStr []).
  rewrite (unique_from_map CStr String.eqb cell_eqb) by reflexivity.
  f_equal. apply (unique_copies _ String.eqb String.eqb_eq).
  exact (NoDup_map_inv _ _ distinct_municipios).
Qed.

(** Its columns are the keys of the value columns, in their order. *)
Lemma pivot_keys :
  unique _ key_eqb (map key_of_row long) =
  map (key_or_default lib) (value_cols df).
Proof.
  rewrite long_keys. apply (unique_from_runs _ key_eqb key_eqb_eq).
  - apply grid_nonempty.
  - exact distinct_defaults.
  - intros k _ [].
Qed.

Lemma long_length :
  List.length long = (List.length (value_cols df) * nrows df)%nat.
Proof.
  rewrite (preparar_length lib df long accepted).
  apply base_length; [exact rect|exact has_municipio].
Qed.

Lemma long_nth j i :
  (j < List.length (value_cols df))%nat -> (i < nrows df)%nat ->
  row_of lib
    (nth i (get "Município" df) CNull, nth j (value_cols df) EmptyString,
     nth i (get (nth j (value_cols df) EmptyString) df) CNull)
    (nth (j * nrows df + i) long no_row).
Proof.
  intros Hj Hi.
  destruct (long_row_at lib df long j i rect accepted Hj Hi) as [r [Hnth Hrow]].
  now rewrite (nth_error_nth _ _ no_row Hnth).
Qed.

(** The entry of the pivot for the [i]-th municipality under the key of the
    [j]-th value column is the coerced cell of the wide table. *)
Lemma pivot_cell_at j i :
  (j < List.length (value_cols df))%nat -> (i < nrows df)%nat ->
  pivot_cell long
    (key_or_default lib (nth j (value_cols df) EmptyString))
    (nth i (get "Município" df) CNull) =
  OK (to_numeric lib (nth i (get (nth j (value_cols df) EmptyString) df) CNull)).
Proof.
  intros Hj Hi. unfold pivot_cell.
  set (k := key_or_default lib (nth j (value_cols df) EmptyString)).
  set (m := nth i (get "Município" df) CNull).
  set (p := fun r => cell_eqb (Municipio r) m && key_eqb (key_of_row r) k).
  assert (Hkey : forall j' i', (j' < List.length (value_cols df))%nat ->
            (i' < nrows df)%nat ->
            key_of_row (nth (j' * nrows df + i') long no_row) =
            key_or_default lib (nth j' (value_cols df) EmptyString)).
  { intros j' i' Hj' Hi'. pose proof (long_nth j' i' Hj' Hi') as Hrow.
    apply row_key in Hrow. cbn [fst snd] in Hrow.
    unfold key_or_default. now rewrite Hrow. }
  assert (Hmun : forall j' i', (j' < List.length (value_cols df))%nat ->
            (i' < nrows df)%nat ->
            Municipio (nth (j' * nrows df + i') long no_row) =
            nth i' (get "Município" df) CNull).
  { intros j' i' Hj' Hi'. now destruct (long_nth j' i' Hj' Hi') as [H _]. }
  assert (Hname : forall i', (i' < nrows df)%nat ->
            is_name (nth i' (get "Município" df) CNull)).
  { intros i' Hi'. rewrite Forall_forall in names. apply names, nth_In.
    now rewrite municipios_length. }
  rewrite (filter_unique_nth p long (j * nrows df + i) no_row).
  - f_equal. now destruct (long_nth j i Hj Hi) as (_ & _ & _ & _ & Hv).
  - rewrite long_length. nia.
  - unfold p. rewrite (Hmun j i Hj Hi), (Hkey j i Hj Hi).
    apply andb_true_iff. split.
    + exact (proj2 (cell_eqb_names m m (Hname i Hi) (Hname i Hi)) eq_refl).
    + now apply key_eqb_eq.
  - intros n Hn Hne. rewrite long_length in Hn.
    assert (HM : nrows df <> 0%nat) by lia.
    pose proof (Nat.div_mod n (nrows df) HM) as Hdm.
    pose proof (Nat.mod_upper_bound n (nrows df) HM) as Hi'.
    set (j' := (n / nrows df)%nat) in *. set (i' := (n mod nrows df)%nat) in *.
    assert (Hj' : (j' < List.length (value_cols df))%nat) by nia.
    replace n with (j' * nrows df + i')%nat by lia.
    unfold p. rewrite (Hmun j' i' Hj' Hi'), (Hkey j' i' Hj' Hi').
    destruct (cell_eqb _ m) eqn:Ec; [|reflexivity].
    destruct (key_eqb _ k) eqn:Ek; [|reflexivity].
    exfalso. apply Hne.
    apply cell_eqb_names in Ec; [|now apply Hname|now apply Hname].
    apply key_eqb_eq in Ek. unfold m, k in *.
    assert (Ei : i' = i).
    { apply (proj1 (NoDup_nth _ CNull) distinct_municipios);
        rewrite ?municipios_length; auto. }
    assert (Ej : j' = j).
    { apply (proj1 (NoDup_nth _ (key_or_default lib EmptyString)) distinct_defaults);
        rewrite ?length_map; auto.
      now rewrite !map_nth. }
    rewrite Hdm, Ei, Ej. lia.
Qed.

Lemma pivot_column j :
  (j < List.length (value_cols df))%nat ->
  mapM (pivot_cell long (key_or_default lib (nth j (value_cols df) EmptyString)))
       (get "Município" df) =
  OK (map (to_numeric lib) (get (nth j (value_cols df) EmptyString) df)).
Proof.
  intros Hj. apply (mapM_nth _ _ _ CNull (to_numeric lib CNull)).
  - rewrite length_map, municipios_length.
    apply value_col_length, nth_In, Hj.
  - intros i Hi. rewrite municipios_length in Hi.
    rewrite (pivot_cell_at j i Hj Hi). now rewrite map_nth.
Qed.

(** The pivot of the long table, in full. *)
Lemma pivot_result :
  pivot long =
  OK (mk_wide (get "Município" df)
        (map (fun v => (key_or_default lib v, map (to_numeric lib) (get v df)))
             (value_cols df))).
Proof.
  unfold pivot. rewrite pivot_index, pivot_keys.
  set (out := fun v => (key_or_default lib v, map (to_numeric lib) (get v df))).
  rewrite (mapM_nth _ _ (map out (value_cols df))
             (key_or_default lib EmptyString) (out EmptyString)).
  - reflexivity.
  - now rewrite !length_map.
  - intros j Hj. rewrite length_map in Hj.
    rewrite !map_nth, (pivot_column j Hj). reflexivity.
Qed.

End Grid.

Lemma numbers_survive lib cells :
  Forall is_number cells ->
  map cell_of_float (map (to_numeric lib) cells) = cells.
Proof.
  induction 1 as [|c cells Hc _ IH]; [reflexivity|].
  simpl. rewrite IH. f_equal. destruct c; [reflexivity|contradiction|reflexivity].
Qed.

End PivotFacts.

(** ** Round trip through the long table *)

Module RoundTrip.
Import Float Series Exn Frame GroupBy Reshape Pivot Reference.
Import FrameFacts ReshapeFacts PivotFacts.

Local Open Scope string_scope.




(** Why the other two conditions are there: with a municipality listed
    twice the pivot fails, and with two column names that stand for the
    same key, such as "2017_a" and "02017_a", it fails as well. *)
Example pivot_duplicate_municipio :
  exists e,
    pivot (long_of [("Município", [CStr "A"; CStr "A"]); ("2017_a", [CNum 1; CNum 2])])
    = Raise e.
Proof. eexists. vm_compute. reflexivity. Qed.

Example pivot_colliding_keys :
  exists e,
    pivot (long_of [("Município", [CStr "A"]); ("2017_a", [CNum 1]); ("02017_a", [CNum 2])])
    = Raise e.
Proof. eexists. vm_compute. reflexivity. Qed.

End RoundTrip.

(** ** More on the reshaper: refusals, acceptance, order of the rows *)

Module ReshaperExtras.
Import Float Series Exn Frame GroupBy Reshape App Reference.
Import FrameFacts SeriesFacts ReshapeFacts PivotFacts.

Local Open Scope string_scope.

Lemma mapM_fails {A B} (f : A -> result B) l a e :
  In a l -> f a = Raise e -> exists e', mapM f l = Raise e'.
Proof.
  induction l as [|b l IH]; simpl; [contradiction|].
  intros [->|Hin] Hf.
  - rewrite Hf. simpl. eauto.
  - destruct (f b); simpl; [|eauto].
    destruct (IH Hin Hf) as [e' ->]. simpl. eauto.
Qed.

(** Every value column has a row in the melted table, when there are rows. *)
Lemma base_has_name df v :
  rectangular df -> mem "Município" (columns df) = true ->
  (0 < nrows df)%nat -> In v (value_cols df) ->
  exists b, In b (base df) /\ snd (fst b) = v.
Proof.
  intros Hr Hm HM Hv.
  destruct (In_nth _ _ EmptyString Hv) as [j [Hj Ev]].
  exists (nth (j * nrows df + 0) (base df) (CNull, EmptyString, CNull)). split.
  - apply nth_In. rewrite (base_length df Hr Hm). nia.
  - rewrite (base_nth df j 0 _ Hr Hm Hj HM). exact Ev.
Qed.

(** X1. A value column whose name does not start with an integer makes the
    reshaper raise, whatever the other columns are, as soon as the table
    has a row; the script then shows the error and stops without a chart. *)
Theorem bad_year_is_refused lib df w v :
  rectangular df ->
  mem "Município" (columns df) = true ->
  (0 < nrows df)%nat ->
  In v (value_cols df) ->
  int_of_str lib (fst (split_once v)) = None ->
  exists msg,
    preparar_df_long lib df = Raise (ValueError msg) /\
    main lib (Some df) w =
      [st_error ("Erro ao preparar df_long: " ++ msg); st_stop].
Proof.
  intros Hr Hm HM Hv Hint.
  assert (H : exists e, preparar_df_long lib df = Raise e).
  { unfold preparar_df_long. fold (base df). rewrite Hm. cbn [negb].
    destruct (existsb _ _); cbn [negb]; [|eauto].
    destruct (base_has_name df v Hr Hm HM Hv) as [b [Hb Hn]].
    destruct (mapM_fails
                (fun p : string * option string => astype_int lib (fst p))
                (map (fun r => split_once (snd (fst r))) (base df))
                (split_once v)
                (ValueError "invalid literal for int() with base 10"))
      as [e He].
    - apply in_map_iff. exists b. now rewrite Hn.
    - unfold astype_int. now rewrite Hint.
    - rewrite He. simpl. eauto. }
  destruct H as [[msg] H]. exists msg. split; [exact H|].
  unfold main. now rewrite H.
Qed.

Lemma bad_year_is_refused_witness :
  exists msg,
    main reference (Some df_ano_invalido) widgets_geral =
      [st_error ("Erro ao preparar df_long: " ++ msg); st_stop].
Proof.
  destruct (bad_year_is_refused reference df_ano_invalido widgets_geral "total_geral")
    as [msg [_ H]].
  - unfold rectangular. repeat constructor.
  - reflexivity.
  - simpl. lia.
  - simpl. tauto.
  - reflexivity.
  - exists msg. exact H.
Defined.



(** X3. The long table goes through the value columns in their order in
    the wide table and, inside each, through the rows in their order: its
    column of names repeats each name once per row, and its municipality
    column repeats the whole municipality column once per value column. *)
Theorem long_table_order lib df long :
  rectangular df ->
  preparar_df_long lib df = OK long ->
  map ano_variavel long =
    flat_map (fun v => repeat v (nrows df)) (value_cols df) /\
  map Municipio long =
    flat_map (fun _ => get "Município" df) (value_cols df).
Proof.
  intros Hr H.
  destruct (preparar_columns lib df long H) as (Hm & _ & HM & Hn & _).
  split.
  - rewrite Hn. now apply base_nomes.
  - rewrite HM. now apply base_municipios.
Qed.

Lemma long_table_order_witness :
  map ano_variavel (long_of df_exemplo) = ["2017_geral"; "2018_geral"] /\
  map Municipio (long_of df_exemplo) = [CStr "X"; CStr "X"].
Proof.
  apply (long_table_order reference df_exemplo (long_of df_exemplo)).
  - unfold rectangular. repeat constructor.
  - vm_compute. reflexivity.
Defined.

Lemma get_app name (l1 l2 : DataFrame) :
  get name (l1 ++ l2)%list =
  if mem name (columns l1) then get name l1 else get name l2.
Proof.
  induction l1 as [|c l1 IH]; simpl; [reflexivity|].
  rewrite (String.eqb_sym name (fst c)).
  destruct (String.eqb (fst c) name); simpl; [reflexivity|exact IH].
Qed.

(** X4. Where the municipality column stands among the columns does not
    matter: moving it to the front gives the same result, long table or
    exception. *)
Theorem municipio_anywhere lib pre post ms :
  ~ In "Município" (columns pre) ->
  preparar_df_long lib (pre ++ ("Município", ms) :: post)%list =
  preparar_df_long lib (("Município", ms) :: pre ++ post)%list.
Proof.
  intros Hpre.
  set (df1 := (pre ++ ("Município", ms) :: post)%list).
  set (df2 := (("Município", ms) :: pre ++ post)%list).
  assert (Hnot : mem "Município" (columns pre) = false).
  { destruct (mem "Município" (columns pre)) eqn:E; [|reflexivity].
    apply mem_In in E. contradiction. }
  assert (Hm1 : mem "Município" (columns df1) = true).
  { apply mem_In. unfold df1, columns. rewrite map_app, in_app_iff. right. now left. }
  assert (Hm2 : mem "Município" (columns df2) = true) by reflexivity.
  assert (Hvc : value_cols df1 = value_cols df2).
  { unfold value_cols, df1, df2, columns.
    rewrite map_app, filter_app. cbn [map filter fst].
    rewrite String.eqb_refl. cbn [negb].
    now rewrite map_app, filter_app. }
  assert (Hid : get "Município" df1 = get "Município" df2).
  { unfold df1, df2. rewrite get_app, Hnot. reflexivity. }
  assert (Hget : forall v, In v (value_cols df2) -> get v df1 = get v df2).
  { intros v Hv. unfold value_cols in Hv. apply filter_In in Hv.
    destruct Hv as [_ Hne]. apply negb_true_iff in Hne.
    unfold df1, df2. rewrite get_app. cbn [get fst snd].
    rewrite (String.eqb_sym "Município" v), Hne, get_app. reflexivity. }
  assert (Hmelt : melt df1 "Município" (value_cols df2) =
                  melt df2 "Município" (value_cols df2)).
  { unfold melt. apply flat_map_ext_in. intros v Hv.
    now rewrite Hid, (Hget v Hv). }
  unfold preparar_df_long. cbv zeta. now rewrite Hm1, Hm2, Hvc, Hmelt.
Qed.

Lemma municipio_anywhere_witness :
  preparar_df_long reference df_municipio_no_meio =
  preparar_df_long reference
    [ ("Município", [CStr "A"; CStr "B"]);
      ("2017_geral", [CNum 1; CNum 2]);
      ("2018_geral", [CNum 3; CNum 4]) ].
Proof.
  apply (municipio_anywhere reference
           [("2017_geral", [CNum 1; CNum 2])]
           [("2018_geral", [CNum 3; CNum 4])]
           [CStr "A"; CStr "B"]).
  simpl. intros [H|[]]. discriminate H.
Defined.

End ReshaperExtras.

(** ** More on the normaliser: end points, order, sign, unit variance *)

Module NormalizerExtras.
Import Float Series Exn Frame GroupBy Reshape App Degenerate Reference.
Import FloatFacts SeriesFacts GroupByFacts ReshapeFacts NormalizerFacts.

Local Open Scope string_scope.

Section Rows.
Variable lib : library.
Variable df : DataFrame.
Variable long : list long_row.
Variable t : string.
Hypothesis accepted : preparar_df_long lib df = OK long.

(** Outside the degenerate case, the min-max value of a row is read off its
    value by one formula for the whole type. *)
Lemma minmax_formula :
  ~ minmax_degenerate (map valor (filtra_tipo t long)) ->
  exists mn mx,
    min (map valor (filtra_tipo t long)) = Some mn /\
    max (map valor (filtra_tipo t long)) = Some mx /\
    mn < mx /\
    forall r, In r (filtra_tipo t long) ->
      valor_minmax_tipo r =
      option_map (fun x => (x - mn) / (mx - mn)) (valor r).
Proof.
  intros Hnd. pose proof (minmax_by_type lib df long t accepted) as Hcol.
  destruct (minmax_regular _ Hnd) as (mn & mx & Hmn & Hmx & Hlt & Hreg).
  exists mn, mx. repeat (split; [assumption|]).
  intros r Hin. rewrite Hreg in Hcol. unfold div_scalar, sub_scalar in Hcol.
  rewrite !map_map in Hcol. rewrite (map_eq_In _ _ _ _ Hcol Hin).
  now destruct (valor r).
Qed.

Lemma zscore_formula :
  ~ std_undefined_or_zero (sqrt lib) (map valor (filtra_tipo t long)) ->
  exists m sd,
    mean (map valor (filtra_tipo t long)) = Some m /\
    std (sqrt lib) (map valor (filtra_tipo t long)) = Some sd /\
    ~ sd == 0 /\
    forall r, In r (filtra_tipo t long) ->
      valor_zscore_tipo r = option_map (fun x => (x - m) / sd) (valor r).
Proof.
  intros Hnd. pose proof (zscore_by_type lib df long t accepted) as Hcol.
  destruct (zscore_regular _ _ Hnd) as (m & sd & Hm & Hsd & Hnz & Hreg).
  exists m, sd. repeat (split; [assumption|]).
  intros r Hin. rewrite Hreg in Hcol. unfold div_scalar, sub_scalar in Hcol.
  rewrite !map_map in Hcol. rewrite (map_eq_In _ _ _ _ Hcol Hin).
  now destruct (valor r).
Qed.

End Rows.

Lemma In_valor_row (rows : list long_row) x :
  In (Some x) (map valor rows) -> exists r, In r rows /\ valor r = Some x.
Proof.
  intros H. apply in_map_iff in H. destruct H as [r [Hr Hin]]. eauto.
Qed.

(** X5. In a type that is not degenerate, and whose values are finite and
    no larger in magnitude than 2^61, both ends of the scale are reached: a
    row that carries the type's smallest value has min-max value 0, and a
    row that carries its largest value has min-max value 1. *)
Theorem minmax_reaches_both_ends lib df long t :
  preparar_df_long lib df = OK long ->
  Forall within_bound (map valor (filtra_tipo t long)) ->
  ~ minmax_degenerate (map valor (filtra_tipo t long)) ->
  (exists r q, In r (filtra_tipo t long) /\
     valor r = min (map valor (filtra_tipo t long)) /\
     valor_minmax_tipo r = Some q /\ q == 0) /\
  (exists r q, In r (filtra_tipo t long) /\
     valor r = max (map valor (filtra_tipo t long)) /\
     valor_minmax_tipo r = Some q /\ q == 1).
Proof.
  intros H _ Hnd.
  destruct (minmax_formula lib df long t H Hnd) as (mn & mx & Hmn & Hmx & Hlt & Hf).
  split.
  - destruct (In_valor_row _ _ (min_In _ _ Hmn)) as [r [Hin Hv]].
    exists r, ((mn - mn) / (mx - mn)). split; [exact Hin|].
    split; [congruence|]. split; [now rewrite (Hf r Hin), Hv|].
    field. lra.
  - destruct (In_valor_row _ _ (max_In _ _ Hmx)) as [r [Hin Hv]].
    exists r, ((mx - mn) / (mx - mn)). split; [exact Hin|].
    split; [congruence|]. split; [now rewrite (Hf r Hin), Hv|].
    field. lra.
Qed.

Lemma not_degenerate_geral :
  ~ minmax_degenerate (map valor (filtra_tipo "geral" (long_of df_misto))).
Proof.
  intros [(mn & mx & Hmn & Hmx & E)|Hall].
  - vm_compute in Hmn, Hmx. injection Hmn as <-. injection Hmx as <-.
    vm_compute in E. discriminate E.
  - vm_compute in Hall. discriminate Hall.
Qed.

Lemma minmax_reaches_both_ends_witness :
  exists r q, In r (filtra_tipo "geral" (long_of df_misto)) /\
    valor_minmax_tipo r = Some q /\ q == 1.
Proof.
  assert (H : preparar_df_long reference df_misto = OK (long_of df_misto))
    by (vm_compute; reflexivity).
  destruct (minmax_reaches_both_ends reference df_misto (long_of df_misto) "geral"
              H NormalizerProps.within_bound_geral not_degenerate_geral)
    as [_ [r [q (Hin & _ & Hq & E)]]].
  exists r, q. auto.
Defined.



Lemma std_is_sqrt sqrt s sd :
  std sqrt s = Some sd -> exists v, var s = Some v /\ sd = sqrt v.
Proof.
  unfold std. destruct (var s) as [v|]; [|discriminate].
  intros [= <-]. eauto.
Qed.


Lemma sqrt_approx_nonneg x : 0 <= sqrt_approx x.
Proof.
  unfold sqrt_approx. destruct (Qle_bool x 0) eqn:E; [apply Qle_refl|].
  apply Qle_bool_false in E. apply Qlt_le_weak.
  apply ReferenceFacts.heron_pos; [exact E|].
  rewrite Qred_correct. apply Qlt_shift_div_l; lra.
Qed.


Lemma sum_sq_sub_zero s q :
  q == 0 -> sum (sq (sub_scalar s q)) == sum (sq s).
Proof.
  intros Hq. induction s as [|[x|] s IH];
    cbn [sub_scalar sq map option_map sum].
  - reflexivity.
  - fold (sub_scalar s q). fold (sq (sub_scalar s q)). fold (sq s).
    rewrite IH, Hq. ring.
  - exact IH.
Qed.

Lemma sum_sq_div_scalar s c :
  sum (sq (div_scalar s c)) == sum (sq s) / (c * c).
Proof.
  destruct (Qeq_dec c 0) as [Hc|Hc].
  - induction s as [|[x|] s IH]; cbn [div_scalar sq map option_map sum].
    + unfold Qdiv. ring.
    + fold (div_scalar s c). fold (sq (div_scalar s c)). fold (sq s).
      rewrite IH. unfold Qdiv. rewrite Hc.
      change (/ (0 * 0)) with 0. change (/ 0) with 0. ring.
    + exact IH.
  - induction s as [|[x|] s IH]; cbn [div_scalar sq map option_map sum].
    + unfold Qdiv. ring.
    + fold (div_scalar s c). fold (sq (div_scalar s c)). fold (sq s).
      rewrite IH. field. exact Hc.
    + exact IH.
Qed.

(** X8. When the square root is exact at the variance of a type (the
    standard deviation times itself gives the variance back), the z-scores
    of the type have sample variance 1. *)
Theorem zscore_unit_variance lib df long t v sd :
  preparar_df_long lib df = OK long ->
  var (map valor (filtra_tipo t long)) = Some v ->
  std (sqrt lib) (map valor (filtra_tipo t long)) = Some sd ->
  sd * sd == v ->
  ~ sd == 0 ->
  exists u, var (map valor_zscore_tipo (filtra_tipo t long)) = Some u /\ u == 1.
Proof.
  intros H Hv Hsd Hexact Hnz.
  set (g := map valor (filtra_tipo t long)) in *.
  assert (Hnd : ~ std_undefined_or_zero (sqrt lib) g).
  { unfold std_undefined_or_zero. now rewrite Hsd. }
  destruct (zscore_regular _ _ Hnd) as (m & sd' & Hm & Hsd' & _ & Hreg).
  assert (sd' = sd) by congruence. subst sd'.
  rewrite (zscore_by_type lib df long t H). fold g. rewrite Hreg.
  destruct (mean_zscore_zero g m sd Hm Hnz) as [q [Hq Hq0]].
  destruct (mean_Some _ _ Hm) as [n [Hn _]].
  unfold var in Hv. rewrite Hm, Hn in Hv.
  destruct n as [|n]; [discriminate Hv|]. cbn [Nat.leb] in Hv.
  injection Hv as Hv.
  unfold var. rewrite Hq.
  assert (Hc : count (div_scalar (sub_scalar g m) sd) = S (S n)).
  { unfold div_scalar, sub_scalar. now rewrite !count_option_map. }
  rewrite Hc. cbn [Nat.leb]. eexists. split; [reflexivity|].
  rewrite (sum_sq_sub_zero _ _ Hq0), sum_sq_div_scalar.
  replace (S (S n) - 1)%nat with (S n) in * by lia.
  pose proof (of_nat_pos n) as Hpos.
  assert (Hsum : sum (sq (sub_scalar g m)) == v * of_nat (S n)).
  { rewrite <- Hv. field. lra. }
  rewrite Hsum, <- Hexact. field. split; [exact Hnz|lra].
Qed.

Lemma zscore_unit_variance_witness :
  let long := match preparar_df_long reference_floor df_135 with
              | OK l => l | Raise _ => [] end in
  exists u, var (map valor_zscore_tipo (filtra_tipo "leitos" long)) = Some u /\
            u == 1.
Proof.
  intros long.
  assert (H : preparar_df_long reference_floor df_135 = OK long)
    by (vm_compute; reflexivity).
  apply (zscore_unit_variance reference_floor df_135 long "leitos"
           (5832 # 1458) 2 H).
  - vm_compute. reflexivity.
  - vm_compute. reflexivity.
  - reflexivity.
  - discriminate.
Defined.

End NormalizerExtras.

(** ** More on the trend check *)

Module TrendExtras.
Import Float Series Exn Frame GroupBy Reshape App Reference.
Import FloatFacts SeriesFacts GroupByFacts SortFacts RankFacts TrendProps.

Local Open Scope string_scope.

(** X9. The sentence about growth is only ever chosen when some yearly mean
    is negative: the means are compared smallest first, so the first can
    exceed the last by five per cent only below zero. *)
Theorem growth_needs_negative_mean d :
  rotulo_de (tendencia_global d) = growth ->
  exists y q, In (y, Some q) (media_ano d) /\ q < 0.
Proof.
  unfold tendencia_global.
  destruct (2 <=? List.length (media_ano d))%nat eqn:Hlen; [|discriminate].
  apply Nat.leb_le in Hlen.
  pose proof (media_ano_first_le_last d Hlen) as Hle.
  destruct (media_ano d) as [|x l] eqn:E; [simpl in Hlen; lia|].
  assert (Hl : In (last (x :: l) (0%Z, NaN)) (x :: l)) by apply last_In.
  destruct x as [yx vx].
  destruct (last ((yx, vx) :: l) (0%Z, NaN)) as [yl vl] eqn:El.
  cbn [hd fst snd] in *.
  destruct (gt vx (mul vl (Some (105 # 100)))) eqn:Hgt.
  2:{ destruct (lt vx (mul vl (Some (95 # 100)))); discriminate. }
  intros _. destruct vx as [a|], vl as [b|]; try discriminate Hgt.
  simpl in Hgt, Hle. apply Qlt_bool_iff in Hgt. apply Qle_bool_iff in Hle.
  exists yl, b. split; [exact Hl|].
  apply Qnot_le_lt. intros Hb.
  assert (H105 : b * (105 # 100) == b + b * (5 # 100)) by ring.
  assert (H5 : 0 <= b * (5 # 100))
    by (apply Qmult_le_0_compat; [exact Hb|discriminate]).
  lra.
Qed.

Lemma growth_needs_negative_mean_witness :
  exists y q,
    In (y, Some q) (media_ano (filtra_tipo "saldo" (long_of df_negativo))) /\ q < 0.
Proof.
  apply (growth_needs_negative_mean (filtra_tipo "saldo" (long_of df_negativo))).
  vm_compute. reflexivity.
Defined.

Lemma mean_all_missing s : (forall x, In x s -> x = None) -> mean s = None.
Proof.
  intros H. assert (Hc : count s = O).
  { induction s as [|[x|] s IH]; simpl; [reflexivity| |].
    - discriminate (H (Some x) (or_introl eq_refl)).
    - apply IH. intros y Hy. apply H. now right. }
  unfold mean. now rewrite Hc.
Qed.

Lemma two_distinct_length {A} (l : list A) a b :
  In a l -> In b l -> a <> b -> (2 <= List.length l)%nat.
Proof.
  destruct l as [|x [|y l]]; simpl; intros Ha Hb Hne; try lia; try contradiction.
  destruct Ha as [<-|[]], Hb as [<-|[]]. contradiction.
Qed.

Lemma sorted_last {A} (R : A -> A -> Prop) l e d :
  StronglySorted R l -> In e l -> e = last l d \/ R e (last l d).
Proof.
  induction 1 as [|x l Hs IH Hall]; intros Hin; [contradiction|].
  destruct l as [|y l]; [destruct Hin as [<-|[]]; now left|].
  change (last (x :: y :: l) d) with (last (y :: l) d).
  destruct Hin as [<-|Hin]; [|now apply IH].
  right. rewrite Forall_forall in Hall. apply Hall. apply last_In.
Qed.

(** The yearly mean of a year present in the rows. *)
Lemma media_ano_year d r :
  In r d ->
  In (ano r, mean (map valor (filter (fun r' => Z.eqb (ano r) (ano r')) d)))
     (media_ano d).
Proof.
  intros Hin. unfold media_ano.
  apply (Permutation_in _ (sort_values_perm true _)).
  apply groupby_mean_In. split; [|now rewrite group_of_rows].
  destruct (unique_from_complete _ Z.eqb [] (filter (fun _ => true) (map ano d))
              (ano r) (Z.eqb_refl _)) as [H|[k [Hk He]]].
  - apply filter_In. split; [now apply in_map|reflexivity].
  - discriminate H.
  - apply Z.eqb_eq in He. now subst.
Qed.

(** X10. If the rows span at least two years and one of the years has no
    value at all, the trend is reported as stable, whatever the other
    years hold: the missing mean is read as the last one and every
    comparison with it fails. *)
Theorem empty_year_is_stable d r1 r2 :
  In r1 d -> In r2 d ->
  ano r1 <> ano r2 ->
  (forall r, In r d -> ano r = ano r1 -> valor r = NaN) ->
  rotulo_de (tendencia_global d) = stable.
Proof.
  intros H1 H2 Hne Hempty.
  pose proof (media_ano_year d r1 H1) as E1.
  pose proof (media_ano_year d r2 H2) as E2.
  rewrite mean_all_missing in E1.
  2:{ intros x Hx. apply in_map_iff in Hx. destruct Hx as [r [<- Hr]].
      apply filter_In in Hr. destruct Hr as [Hr Hy]. apply Z.eqb_eq in Hy.
      apply Hempty; [exact Hr|congruence]. }
  assert (Hlen : (2 <= List.length (media_ano d))%nat).
  { eapply two_distinct_length; [exact E1|exact E2|]. congruence. }
  assert (Hs : StronglySorted (fun a b : Z * float => asc_leb (snd a) (snd b) = true)
                 (media_ano d)).
  { apply Sorted_StronglySorted; [intros a b c; apply asc_leb_trans|].
    apply sort_values_asc. }
  assert (Hlast : snd (last (media_ano d) (0%Z, NaN)) = None).
  { destruct (sorted_last _ _ _ (0%Z, NaN) Hs E1) as [<-|Hle]; [reflexivity|].
    cbn [snd] in Hle. now destruct (snd (last (media_ano d) (0%Z, NaN))). }
  unfold tendencia_global.
  apply Nat.leb_le in Hlen. rewrite Hlen, Hlast.
  destruct (snd (hd (0%Z, NaN) (media_ano d))); reflexivity.
Qed.

Lemma empty_year_is_stable_witness :
  rotulo_de (tendencia_global (filtra_tipo "geral" (long_of df_ano_vazio))) = stable.
Proof.
  set (d := filtra_tipo "geral" (long_of df_ano_vazio)).
  apply (empty_year_is_stable d (nth 2 d no_row) (nth 0 d no_row)).
  - vm_compute. tauto.
  - vm_compute. tauto.
  - vm_compute. discriminate.
  - intros r Hr Hy. vm_compute in Hr.
    repeat (destruct Hr as [<-|Hr]; [try reflexivity; vm_compute in Hy; discriminate Hy|]).
    destruct Hr.
Defined.

End TrendExtras.

(** ** The sections of the script: rankings and the course of a run *)

Module ScriptExtras.
Import Float Series Exn Frame GroupBy Reshape App Pivot Reference.
Import FloatFacts SeriesFacts GroupByFacts SortFacts RankFacts.

Local Open Scope string_scope.

Lemma desc_leb_trans a b c :
  desc_leb a b = true -> desc_leb b c = true -> desc_leb a c = true.
Proof.
  destruct a as [x|], b as [y|], c as [z|]; simpl; try congruence.
  rewrite !Qle_bool_iff. intros H1 H2. exact (Qle_trans _ _ _ H2 H1).
Qed.

Section Head.
Variable A : Type.
Variable f : A -> float.

(** In a list ordered by descending value, missing values last, the first
    entry carries a value as soon as some entry does, and no value of the
    list is larger. *)
Lemma desc_head l e y :
  Sorted (fun a b => desc_leb (f a) (f b) = true) l ->
  In e l -> f e = Some y ->
  exists h rest x,
    l = h :: rest /\ f h = Some x /\
    forall e' v', In e' l -> f e' = Some v' -> v' <= x.
Proof.
  intros Hs Hin He.
  apply Sorted_StronglySorted in Hs.
  2:{ intros a b c. apply desc_leb_trans. }
  destruct l as [|h rest]; [contradiction|].
  inversion Hs as [|? ? _ Hall]; subst. rewrite Forall_forall in Hall.
  assert (Hh : exists x, f h = Some x).
  { destruct Hin as [->|Hin]; [eauto|].
    specialize (Hall _ Hin). rewrite He in Hall.
    destruct (f h) as [x|]; [eauto|discriminate]. }
  destruct Hh as [x Hx]. exists h, rest, x. repeat split; try assumption.
  intros e' v' [<-|Hin'] Hv'.
  - assert (x = v') by congruence. subst. apply Qle_refl.
  - specialize (Hall _ Hin'). rewrite Hx, Hv' in Hall.
    now apply Qle_bool_iff.
Qed.

End Head.

Lemma count_perm s s' : Permutation s s' -> count s = count s'.
Proof.
  induction 1 as [| [x|] | [x|] [y|] |]; simpl; congruence.
Qed.

Lemma count_In s x : In (Some x) s -> count s <> O.
Proof.
  intros Hin Hc. exact (count_0_no_Some _ _ Hc Hin).
Qed.

Lemma count_pos_Some s : count s <> O -> exists x, In (Some x) s.
Proof.
  induction s as [|[y|] s IH]; simpl; intros H.
  - contradiction.
  - exists y. now left.
  - destruct (IH H) as [x Hx]. exists x. now right.
Qed.

Lemma sort_rows_desc_perm df : Permutation df (sort_rows_desc df).
Proof. apply sort_perm. Qed.

Lemma sort_rows_desc_sorted df :
  Sorted (fun a b => desc_leb (valor a) (valor b) = true) (sort_rows_desc df).
Proof. apply sort_sorted. intros a b. apply desc_leb_total. Qed.



Lemma mean_of_In s x : In (Some x) s -> exists m, mean s = Some m.
Proof.
  intros Hin. unfold mean. pose proof (count_In _ _ Hin).
  destruct (count s); [contradiction|eauto].
Qed.



Lemma secao1_goes_on long w : existsb ends_run (secao1 long w) = false.
Proof.
  unfold secao1. destruct (count _ =? 0)%nat; reflexivity.
Qed.

Lemma secao2_goes_on long w : existsb ends_run (secao2 long w) = false.
Proof.
  unfold secao2. destruct (count _ =? 0)%nat; reflexivity.
Qed.

Lemma top3_length df :
  List.length (firstn 3 (sort_rows_desc df)) = Nat.min 3 (List.length df).
Proof.
  rewrite length_firstn.
  now rewrite <- (Permutation_length (sort_rows_desc_perm df)).
Qed.

(** When section 3 ends the run. *)
Lemma secao3_ends long w :
  existsb ends_run (secao3 long w) = true <->
  count (map valor (df_rank_de long w)) <> O /\
  List.length (df_rank_de long w) = 2%nat.
Proof.
  unfold secao3. fold (df_rank_de long w).
  destruct (count (map valor (df_rank_de long w))) as [|n] eqn:Hc.
  - simpl. split; [discriminate|]. intros [H _]. now destruct H.
  - cbn [Nat.eqb]. rewrite top3_length.
    destruct (Nat.min 3 (List.length (df_rank_de long w)) =? 2)%nat eqn:E.
    + apply Nat.eqb_eq in E. simpl. split; [|reflexivity].
      intros _. split; [discriminate|lia].
    + apply Nat.eqb_neq in E. simpl. split; [discriminate|]. intros [_ H]. lia.
Qed.

Lemma main_sections lib df long w :
  preparar_df_long lib df = OK long ->
  main lib (Some df) w =
  ([st_success (nrows df) (List.length df)]
   ++ secao1 long w ++ secao2 long w
   ++ and_then (secao3 long w) (secao4 long w))%list.
Proof.
  intros H. unfold main. rewrite H. f_equal.
  unfold and_then at 1. rewrite secao1_goes_on. f_equal.
  unfold and_then at 1. now rewrite secao2_goes_on.
Qed.

(** X13. Take a table whose municipalities are names and whose value
    columns all have a type, so that the options of the widgets can be
    listed.  When exactly two rows match the type and year chosen for the
    ranking of section 3, and one of them carries a value, the chart of the
    section is drawn and the text that follows fails with an IndexError:
    the run ends there, and section 4 shows nothing. *)
Theorem ranking_of_two_fails lib df long w :
  Forall is_name (get "Município" df) ->
  Forall (fun v => tipo_notnull (snd (split_once v)) = true) (value_cols df) ->
  preparar_df_long lib df = OK long ->
  List.length (df_rank_de long w) = 2%nat ->
  count (map valor (df_rank_de long w)) <> O ->
  secao3 long w =
    [st_pyplot (sort_rows_desc (df_rank_de long w)); uncaught "IndexError"] /\
  main lib (Some df) w =
    ([st_success (nrows df) (List.length df)]
     ++ secao1 long w ++ secao2 long w
     ++ [st_pyplot (sort_rows_desc (df_rank_de long w)); uncaught "IndexError"])%list.
Proof.
  intros _ _ H Hlen Hc.
  assert (H3 : secao3 long w =
    [st_pyplot (sort_rows_desc (df_rank_de long w)); uncaught "IndexError"]).
  { unfold secao3. fold (df_rank_de long w).
    destruct (count (map valor (df_rank_de long w))); [contradiction|].
    cbn [Nat.eqb]. now rewrite top3_length, Hlen. }
  split; [exact H3|].
  rewrite (main_sections lib df long w H). unfold and_then.
  now rewrite H3.
Qed.

Lemma ranking_of_two_fails_witness :
  exists dados,
    secao3 (long_of df_100_94) widgets_geral =
      [st_pyplot dados; uncaught "IndexError"].
Proof.
  destruct (ranking_of_two_fails reference df_100_94 (long_of df_100_94)
              widgets_geral) as [H _].
  - repeat constructor.
  - repeat constructor.
  - vm_compute. reflexivity.
  - reflexivity.
  - vm_compute. discriminate.
  - eexists. exact H.
Defined.



End ScriptExtras.

(** ** The line chart *)

Module PlotExtras.
Import Float Series Exn Frame GroupBy Reshape App Reference.
Import GroupByFacts SortFacts RankFacts PivotFacts NormalizerFacts.

Local Open Scope string_scope.

Lemma Sorted_map {A B} (h : A -> B) (R : B -> B -> Prop) l :
  Sorted (fun u v => R (h u) (h v)) l -> Sorted R (map h l).
Proof.
  induction 1 as [|a l Hs IH Hhd]; simpl; constructor; [exact IH|].
  destruct Hhd; simpl; constructor. assumption.
Qed.

Lemma Sorted_weaken {A} (R R' : A -> A -> Prop) l :
  (forall a b, R a b -> R' a b) -> Sorted R l -> Sorted R' l.
Proof.
  intros H. induction 1 as [|a l Hs IH Hhd]; constructor; [exact IH|].
  destruct Hhd; constructor. now apply H.
Qed.

Lemma Permutation_flat_map_ext {A B} (f g : A -> list B) l :
  (forall a, Permutation (f a) (g a)) ->
  Permutation (flat_map f l) (flat_map g l).
Proof.
  intros H. induction l as [|a l IH]; simpl; [constructor|].
  now apply Permutation_app.
Qed.

(** Two tests that never hold together split a list in two. *)
Lemma filter_disjoint_perm {A} (p q : A -> bool) l :
  (forall a, In a l -> p a = true -> q a = false) ->
  Permutation (filter p l ++ filter q l) (filter (fun a => p a || q a) l).
Proof.
  induction l as [|a l IH]; intros H; simpl; [constructor|].
  assert (IH' : Permutation (filter p l ++ filter q l)
                  (filter (fun a => p a || q a) l)).
  { apply IH. intros b Hb. apply H. now right. }
  destruct (p a) eqn:Ep; simpl.
  - rewrite (H a (or_introl eq_refl) Ep). now constructor.
  - destruct (q a); simpl; [|exact IH'].
    eapply perm_trans; [apply Permutation_sym, Permutation_middle|].
    now constructor.
Qed.

Section Lines.
Variable K : Type.
Variable eqb : K -> K -> bool.
Variable notnull : K -> bool.
Hypothesis eqb_sym : forall a b, eqb a b = eqb b a.
Hypothesis eqb_trans : forall a b c, eqb a b = true -> eqb b c = true -> eqb a c = true.
Hypothesis eqb_refl : forall a, notnull a = true -> eqb a a = true.
Hypothesis eqb_notnull : forall a b, eqb a b = true -> notnull b = true.

Variable group_col : long_row -> K.

(** Rows taken label by label, for labels none of which equals another. *)
Lemma rows_by_label (rows : list long_row) ks :
  ForallOrdPairs (fun a b => eqb b a = false) ks ->
  Permutation
    (flat_map (fun k => filter (fun r => eqb k (group_col r)) rows) ks)
    (filter (fun r => existsb (fun k => eqb k (group_col r)) ks) rows).
Proof.
  induction 1 as [|k ks Hk Hks IH]; simpl.
  - rewrite filter_none; [constructor|reflexivity].
  - eapply perm_trans; [apply Permutation_app_head; exact IH|].
    apply filter_disjoint_perm.
    intros r _ Hr. destruct (existsb _ ks) eqn:E; [|reflexivity].
    apply existsb_exists in E. destruct E as [k' [Hk' He]].
    rewrite Forall_forall in Hk. specialize (Hk _ Hk').
    rewrite eqb_sym in Hr. rewrite (eqb_trans _ _ _ He Hr) in Hk. discriminate.
Qed.

Lemma rows_with_label (rows : list long_row) :
  filter (fun r => existsb (fun k => eqb k (group_col r))
                     (unique _ eqb (filter notnull (map group_col rows)))) rows =
  filter (fun r => notnull (group_col r)) rows.
Proof.
  apply filter_ext_in. intros r Hr.
  destruct (notnull (group_col r)) eqn:E.
  - apply existsb_exists.
    destruct (unique_from_complete _ eqb [] (filter notnull (map group_col rows))
                (group_col r) (eqb_refl _ E)) as [H|[k [Hk He]]].
    + apply filter_In. split; [now apply in_map|exact E].
    + discriminate H.
    + exists k. split; [exact Hk|]. now rewrite eqb_sym.
  - destruct (existsb _ _) eqn:Ex; [|reflexivity].
    apply existsb_exists in Ex. destruct Ex as [k [_ He]].
    apply eqb_notnull in He. congruence.
Qed.

End Lines.

(** X15. The line chart draws one line per label that is not null, with
    the points of each line in ascending order of the x column, and its
    lines together hold the rows with a label once each: nothing is left
    out and nothing is drawn twice.  (The labels are compared by an
    equality that is symmetric and transitive, holds between a label that
    is not null and itself, and never holds with a null label.) *)
Theorem plot_lines {K} (eqb : K -> K -> bool) (notnull : K -> bool)
  (df_plot : list long_row) (x_col : long_row -> Z) (y_col : long_row -> float)
  (group_col : long_row -> K) :
  (forall a b, eqb a b = eqb b a) ->
  (forall a b c, eqb a b = true -> eqb b c = true -> eqb a c = true) ->
  (forall a, notnull a = true -> eqb a a = true) ->
  (forall a b, eqb a b = true -> notnull b = true) ->
  let lines := plot_serie_temporal eqb notnull df_plot x_col y_col group_col in
  (forall label points, In (label, points) lines ->
     notnull label = true /\
     Sorted (fun p q => (fst p <= fst q)%Z) points) /\
  ForallOrdPairs (fun a b => eqb (fst b) (fst a) = false) lines /\
  Permutation
    (flat_map snd lines)
    (map (fun r => (x_col r, y_col r))
       (filter (fun r => notnull (group_col r)) df_plot)).
Proof.
  intros Hsym Htrans Hrefl Hnn lines.
  set (keys := unique _ eqb (filter notnull (map group_col df_plot))).
  set (pt := fun r : long_row => (x_col r, y_col r)).
  set (leb := fun a b : long_row => Z.leb (x_col a) (x_col b)).
  split; [|split].
  - intros label points Hin. unfold lines, plot_serie_temporal in Hin.
    apply in_map_iff in Hin. destruct Hin as [k [[= <- <-] Hk]].
    split.
    + apply unique_from_sound in Hk. destruct Hk as [Hk _].
      apply filter_In in Hk. tauto.
    + apply (Sorted_map pt (fun p q : Z * float => (fst p <= fst q)%Z)).
      apply (Sorted_weaken (fun a b => leb a b = true)).
      * intros a b Hab. now apply Z.leb_le.
      * apply sort_sorted. intros a b. unfold leb.
        destruct (Z.leb_spec (x_col a) (x_col b)); [now left|right].
        apply Z.leb_le. lia.
  - apply (FOP_map fst (fun a b => eqb b a = false)).
    unfold lines, plot_serie_temporal. rewrite map_map. cbn [fst].
    rewrite map_id. apply unique_from_distinct.
  - unfold lines, plot_serie_temporal. fold keys. rewrite flat_map_map. cbn [snd].
    eapply perm_trans.
    { apply (Permutation_flat_map_ext _
               (fun k => map pt (filter (fun r => eqb k (group_col r)) df_plot))).
      intros k. apply Permutation_map, Permutation_sym, sort_perm. }
    rewrite <- (map_flat_map
                 (fun k => filter (fun r => eqb k (group_col r)) df_plot) pt).
    apply Permutation_map.
    rewrite <- (rows_with_label K eqb notnull Hsym Hrefl Hnn group_col df_plot).
    apply (rows_by_label K eqb Hsym Htrans group_col).
    apply unique_from_distinct.
Qed.

Lemma tipo_eqb_trans a b c :
  tipo_eqb a b = true -> tipo_eqb b c = true -> tipo_eqb a c = true.
Proof.
  destruct a, b, c; simpl; try discriminate.
  rewrite !String.eqb_eq. congruence.
Qed.

Lemma plot_lines_witness :
  let lines :=
    plot_serie_temporal tipo_eqb tipo_notnull (long_of df_misto) ano valor tipo in
  Permutation (flat_map snd lines)
    (map (fun r => (ano r, valor r))
       (filter (fun r => tipo_notnull (tipo r)) (long_of df_misto))).
Proof.
  apply (plot_lines tipo_eqb tipo_notnull (long_of df_misto) ano valor tipo).
  - exact tipo_eqb_sym.
  - exact tipo_eqb_trans.
  - intros [s|] H; [apply String.eqb_refl|discriminate H].
  - intros [s|] [u|] H; try discriminate H. reflexivity.
Defined.

End PlotExtras.

(** ** Normalisation type by type *)

Module ScaleExtras.
Import Float Series Exn Frame GroupBy Reshape App Degenerate Reference.
Import FloatFacts SeriesFacts GroupByFacts ReshapeFacts NormalizerFacts.

Local Open Scope string_scope.

(** X16. The two normalised columns are computed type by type: restricted
    to the rows of one type, the min-max column is [_minmax] of the values
    of that type alone, and the z-score column is [_zscore] of them; the
    rows of other types play no part. *)
Theorem normalised_by_type lib df long t :
  preparar_df_long lib df = OK long ->
  map valor_minmax_tipo (filtra_tipo t long) =
    _minmax (map valor (filtra_tipo t long)) /\
  map valor_zscore_tipo (filtra_tipo t long) =
    _zscore lib (map valor (filtra_tipo t long)).
Proof.
  intros H. split; [now apply (minmax_by_type lib df)|now apply (zscore_by_type lib df)].
Qed.

Lemma normalised_by_type_witness :
  map valor_minmax_tipo (filtra_tipo "covid_total" (long_of df_misto)) =
  _minmax [Some 7; Some 7; Some 7].
Proof.
  assert (H : preparar_df_long reference df_misto = OK (long_of df_misto))
    by (vm_compute; reflexivity).
  exact (proj1 (normalised_by_type reference df_misto (long_of df_misto)
                  "covid_total" H)).
Defined.

End ScaleExtras.

(** ** The summaries of the most recent year *)

Module SummaryExtras.
Import Float Series Exn Frame GroupBy Reshape App Reference.
Import FloatFacts SeriesFacts GroupByFacts SortFacts RankFacts.

Local Open Scope string_scope.

Lemma fold_max_spec d l :
  In (fold_right Z.max d l) (d :: l) /\
  (d <= fold_right Z.max d l)%Z /\
  forall y, In y l -> (y <= fold_right Z.max d l)%Z.
Proof.
  induction l as [|x l (Hin & Hd & Hall)]; simpl.
  - split; [now left|]. split; [lia|]. intros y [].
  - split; [|split].
    + destruct (Z.max_spec x (fold_right Z.max d l)) as [[_ ->]|[_ ->]].
      * destruct Hin as [Hin|Hin]; [now left|right; now right].
      * right. now left.
    + lia.
    + intros y [<-|Hy]; [lia|]. specialize (Hall y Hy). lia.
Qed.

(** [ano_max] of a column that is not empty is its largest entry. *)
Lemma ano_max_spec l :
  l <> [] ->
  In (ano_max l) l /\ forall y, In y l -> (y <= ano_max l)%Z.
Proof.
  intros Hne. unfold ano_max. destruct l as [|x l]; [contradiction|].
  cbn [hd]. destruct (fold_max_spec x (x :: l)) as (Hin & _ & Hall).
  split; [|exact Hall].
  destruct Hin as [E|Hin]; [rewrite <- E; now left|exact Hin].
Qed.

Lemma count_nonempty (rows : list long_row) col :
  count (map col rows) <> O -> map ano rows <> [].
Proof. destruct rows; simpl; [intros H; now destruct H|discriminate]. Qed.

Lemma filter_filter' {A} (p q : A -> bool) l :
  filter p (filter q l) = filter (fun a => q a && p a) l.
Proof.
  induction l as [|a l IH]; simpl; [reflexivity|].
  destruct (q a); simpl; [|exact IH]. destruct (p a); now rewrite IH.
Qed.

Section Summary.
Variable d : list long_row.
Variable label : long_row -> option string.
Variable col : long_row -> float.

(** A summary by label of the rows of the most recent year of [d]. *)
Lemma resumo_spec :
  let y := ano_max (map ano d) in
  let dy := filter (fun r => Z.eqb (ano r) y) d in
  let resumo :=
    sort_values false
      (groupby_mean _ tipo_eqb tipo_notnull (map label dy) (map col dy)) in
  Sorted (fun a b => desc_leb (snd a) (snd b) = true) resumo /\
  forall k v, In (k, v) resumo ->
    (exists r, In r d /\ ano r = y /\ label r = k) /\
    tipo_notnull k = true /\
    v = mean (map col (filter (fun r => Z.eqb (ano r) y && tipo_eqb k (label r)) d)).
Proof.
  intros y dy resumo. split; [apply sort_values_desc|].
  intros k v Hin.
  apply (Permutation_in _ (Permutation_sym (sort_values_perm false _))) in Hin.
  apply groupby_mean_In in Hin. destruct Hin as [Hk ->].
  apply unique_from_sound in Hk. destruct Hk as [Hk _].
  apply filter_In in Hk. destruct Hk as [Hk Hnn].
  apply in_map_iff in Hk. destruct Hk as [r [Hr Hin]].
  apply filter_In in Hin. destruct Hin as [Hin Hy]. apply Z.eqb_eq in Hy.
  split; [exists r; auto|]. split; [exact Hnn|].
  rewrite group_of_rows. unfold dy. now rewrite filter_filter'.
Qed.

End Summary.

Lemma tipo_isin_In l t :
  tipo_isin l t = true <-> exists s, t = Some s /\ In s l.
Proof.
  unfold tipo_isin. rewrite existsb_exists. split.
  - intros [s [Hs He]]. destruct t as [u|]; [|discriminate He].
    simpl in He. apply String.eqb_eq in He. subst. eauto.
  - intros [s [-> Hs]]. exists s. split; [exact Hs|]. simpl. apply String.eqb_refl.
Qed.

(** X18. When section 2 does not warn, its summary is about the most
    recent year that has a row for the chosen municipality and types,
    whether or not that year has values: every entry belongs to one of the
    chosen types, its mean is taken over the rows of that type, municipality
    and year on the chosen scale (missing when none has a value), and the
    entries come by descending mean, missing means last. *)
Theorem summary_of_last_year long w :
  count (map (col_valor (escala_sec2 w)) (df_city_de long w)) <> O ->
  exists ano_final resumo_final,
    secao2 long w =
      [st_pyplot (df_city_de long w); st_markdown (Resumo2 ano_final resumo_final)] /\
    (exists r, In r (df_city_de long w) /\ ano r = ano_final) /\
    (forall r, In r (df_city_de long w) -> (ano r <= ano_final)%Z) /\
    Sorted (fun a b => desc_leb (snd a) (snd b) = true) resumo_final /\
    forall k v, In (k, v) resumo_final ->
      (exists s, k = Some s /\ In s (tipos_selecionados w)) /\
      v = mean (map (col_valor (escala_sec2 w))
             (filter (fun r => Z.eqb (ano r) ano_final && tipo_eqb k (tipo r))
                (df_city_de long w))).
Proof.
  intros Hc.
  set (d := df_city_de long w) in *.
  set (col := col_valor (escala_sec2 w)) in *.
  destruct (ano_max_spec (map ano d) (count_nonempty d col Hc)) as [Hin Hmax].
  destruct (resumo_spec d tipo col) as [Hs Hent].
  exists (ano_max (map ano d)).
  exists (sort_values false
            (groupby_mean _ tipo_eqb tipo_notnull
               (map tipo (filter (fun r => Z.eqb (ano r) (ano_max (map ano d))) d))
               (map col (filter (fun r => Z.eqb (ano r) (ano_max (map ano d))) d)))).
  split; [|split; [|split; [|split; [exact Hs|]]]].
  - unfold secao2. fold (df_city_de long w). fold d. fold col.
    destruct (count (map col d)) as [|n]; [contradiction|]. reflexivity.
  - apply in_map_iff in Hin. destruct Hin as [r [Hr Hin]]. eauto.
  - intros r Hr. apply Hmax. now apply in_map.
  - intros k v Hkv. destruct (Hent k v Hkv) as ([r (Hr & _ & Hk)] & _ & Hv).
    split; [|exact Hv].
    unfold d, df_city_de in Hr. apply filter_In in Hr.
    destruct Hr as [_ Hr]. apply andb_true_iff in Hr. destruct Hr as [_ Hr].
    rewrite Hk in Hr. now apply tipo_isin_In.
Qed.

Lemma summary_of_last_year_witness :
  exists resumo_final,
    secao2 (long_of df_misto) widgets_geral =
      [st_pyplot (df_city_de (long_of df_misto) widgets_geral);
       st_markdown (Resumo2 2018 resumo_final)].
Proof.
  destruct (summary_of_last_year (long_of df_misto) widgets_geral)
    as (y & resumo & H & [r [Hr Hy]] & Hmax & _).
  - vm_compute. discriminate.
  - exists resumo. rewrite H. repeat f_equal.
    assert (Hle : (2018 <= y)%Z).
    { apply (Hmax (nth 1 (df_city_de (long_of df_misto) widgets_geral) no_row)).
      vm_compute. tauto. }
    assert (Hge : (y <= 2018)%Z).
    { rewrite <- Hy. vm_compute in Hr.
      destruct Hr as [<-|[<-|[]]]; vm_compute; discriminate. }
    lia.
Defined.

(** X19. When the municipalities of the chosen rows are all strings and
    section 4 does not warn, its summary is about the most recent year that
    has a row for the chosen municipalities and types:
    every entry is labelled municipality, dash, type after a row of that
    year, with one of the chosen types; its mean is taken over the rows of
    that year with that label on the chosen scale; and the entries come by
    descending mean, missing means last. *)
Theorem summary_of_series long w :
  Forall (fun r => Pivot.is_name (Municipio r)) (df_comp_de long w) ->
  count (map (col_valor (escala_sec4 w)) (df_comp_de long w)) <> O ->
  exists ano_final4 resumo4,
    secao4 long w =
      [st_pyplot (df_comp_de long w); st_markdown (Resumo4 ano_final4 resumo4)] /\
    (exists r, In r (df_comp_de long w) /\ ano r = ano_final4) /\
    (forall r, In r (df_comp_de long w) -> (ano r <= ano_final4)%Z) /\
    Sorted (fun a b => desc_leb (snd a) (snd b) = true) resumo4 /\
    forall k v, In (k, v) resumo4 ->
      (exists r m t,
         In r (df_comp_de long w) /\ ano r = ano_final4 /\
         Municipio r = CStr m /\ tipo r = Some t /\ In t (tipos_sel4 w) /\
         k = Some (m ++ " – " ++ t)) /\
      v = mean (map (col_valor (escala_sec4 w))
             (filter (fun r => Z.eqb (ano r) ano_final4 && tipo_eqb k (serie r))
                (df_comp_de long w))).
Proof.
  intros _ Hc.
  set (d := df_comp_de long w) in *.
  set (col := col_valor (escala_sec4 w)) in *.
  destruct (ano_max_spec (map ano d) (count_nonempty d col Hc)) as [Hin Hmax].
  destruct (resumo_spec d serie col) as [Hs Hent].
  exists (ano_max (map ano d)).
  exists (sort_values false
            (groupby_mean _ tipo_eqb tipo_notnull
               (map serie (filter (fun r => Z.eqb (ano r) (ano_max (map ano d))) d))
               (map col (filter (fun r => Z.eqb (ano r) (ano_max (map ano d))) d)))).
  split; [|split; [|split; [|split; [exact Hs|]]]].
  - unfold secao4. fold (df_comp_de long w). fold d. fold col.
    destruct (count (map col d)) as [|n]; [contradiction|]. reflexivity.
  - apply in_map_iff in Hin. destruct Hin as [r [Hr Hin]]. eauto.
  - intros r Hr. apply Hmax. now apply in_map.
  - intros k v Hkv. destruct (Hent k v Hkv) as ([r (Hr & Hy & Hk)] & Hnn & Hv).
    split; [|exact Hv].
    assert (Hsel : tipo_isin (tipos_sel4 w) (tipo r) = true).
    { unfold d, df_comp_de in Hr. apply filter_In in Hr.
      destruct Hr as [_ Hr]. apply andb_true_iff in Hr. tauto. }
    apply tipo_isin_In in Hsel. destruct Hsel as [t [Ht Hsel]].
    unfold serie in Hk. rewrite Ht in Hk.
    destruct (Municipio r) as [q|m|] eqn:Em;
      try (subst k; discriminate Hnn).
    exists r, m, t. repeat (split; [first [assumption|reflexivity]|]).
    now symmetry.
Qed.

Lemma summary_of_series_witness :
  exists ano_final4 resumo4,
    secao4 (long_of df_misto) widgets_geral =
      [st_pyplot (df_comp_de (long_of df_misto) widgets_geral);
       st_markdown (Resumo4 ano_final4 resumo4)].
Proof.
  destruct (summary_of_series (long_of df_misto) widgets_geral)
    as (y & resumo & H & _).
  - vm_compute. repeat constructor.
  - vm_compute. discriminate.
  - exists y, resumo. exact H.
Defined.

End SummaryExtras.
